(** * Gemini MCP server: session store, instruction composer, model router
      and tool dispatcher of [src/index.ts], embedded in Rocq.

    Conventions of the embedding.
    - JavaScript strings are [string]s (sequences of 8-bit characters); the
      case mapping of [toLowerCase] and the character classes of the regular
      expression are the ASCII ones.
    - JavaScript numbers that hold timestamps and image counts are integers,
      modelled as [Z] ([NaN] and fractional values are outside the model).
    - An optional field ([cwd?: string]) is an [option]; the truthiness tests
      of the source ([if (config.cwd)], [x || d], [x ?? d]) are written out.
    - The [sessions] map is a [gmap string ConversationSession].
    - Everything the handler reads from outside (clock, random source,
      Gemini client, file system) is a field of the [World] it is run in,
      and every request it issues on the Gemini client is recorded in
      [wire].
    - The handler is an [async] function.  [handleCallTool] is one dispatch
      from its first statement to its [return], with nothing else running
      in between; [begin] and [resume] are its two halves, before and after
      the [await] on the Gemini client, and [execute] runs any interleaving
      of the halves of several dispatches. *)

From Stdlib Require Import ZArith String Ascii.
From stdpp Require Import gmap strings list fin_maps pretty.

Local Open Scope string_scope.
Local Open Scope list_scope.
Local Open Scope Z_scope.

(** ** JavaScript primitives used by the server *)

Module Js.

(** [String.prototype.toLowerCase], on ASCII letters. *)
Definition lower_ascii (c : ascii) : ascii :=
  let n := nat_of_ascii c in
  if (Nat.leb 65 n && Nat.leb n 90)%bool then ascii_of_nat (n + 32) else c.

Fixpoint toLowerCase (s : string) : string :=
  match s with
  | EmptyString => EmptyString
  | String c r => String (lower_ascii c) (toLowerCase r)
  end.

(** [String.prototype.includes]: substring containment. *)
Fixpoint includes (s sub : string) : bool :=
  String.prefix sub s ||
  match s with
  | EmptyString => false
  | String _ r => includes r sub
  end.

(** [Array.prototype.some]. *)
Definition some {A} (p : A → bool) (l : list A) : bool := existsb p l.

(** [Array.prototype.join] on an array of strings. *)
Definition join (sep : string) (parts : list string) : string :=
  String.concat sep parts.

(** Truthiness of a value of type [string | undefined]: the empty string
    and [undefined] are falsy. *)
Definition truthy (v : option string) : bool :=
  match v with
  | Some s => negb (String.eqb s "")
  | None => false
  end.

(** [v || d] at type string. *)
Definition or_else (v : option string) (d : string) : string :=
  match v with
  | Some s => if String.eqb s "" then d else s
  | None => d
  end.

(** [v || d] at type number ([0] is falsy). *)
Definition or_else_num (v : option Z) (d : Z) : Z :=
  match v with
  | Some n => if Z.eqb n 0 then d else n
  | None => d
  end.

(** [v || false] at type boolean. *)
Definition or_false (v : option bool) : bool :=
  match v with
  | Some b => b
  | None => false
  end.

(** [v ?? d]: only [undefined] is replaced. *)
Definition nullish {A} (v : option A) (d : A) : A :=
  match v with
  | Some a => a
  | None => d
  end.

(** [s.slice(0, n)] for [0 <= n]. *)
Definition slice0 (n : nat) (s : string) : string := String.substring 0 n s.

(** [s.substring(a, b)] for [0 <= a <= b]. *)
Definition substring (a b : nat) (s : string) : string :=
  String.substring a (b - a) s.

(** The class [[a-zA-Z0-9]]. *)
Definition alnum (c : ascii) : bool :=
  let n := nat_of_ascii c in
  ((Nat.leb 48 n && Nat.leb n 57) ||
   (Nat.leb 65 n && Nat.leb n 90) ||
   (Nat.leb 97 n && Nat.leb n 122))%bool.

(** [s.replace(/[^a-zA-Z0-9]/g, "_")]. *)
Fixpoint replace_non_alnum (s : string) : string :=
  match s with
  | EmptyString => EmptyString
  | String c r =>
      String (if alnum c then c else "_"%char) (replace_non_alnum r)
  end.

(** Values an own or inherited property of an object literal can hold
    here: a string, a built-in function, or the prototype object. *)
Inductive value :=
| VString (s : string)
| VNative (name : string)
| VObject.

(** Truthiness of a property read ([undefined] is [None]). *)
Definition truthy_value (v : option value) : bool :=
  match v with
  | Some (VString s) => negb (String.eqb s "")
  | Some (VNative _) => true
  | Some VObject => true
  | None => false
  end.

(** Conversion to string inside a template literal (V8's rendering of
    built-in functions). *)
Definition to_string (v : option value) : string :=
  match v with
  | Some (VString s) => s
  | Some (VNative name) => "function " +:+ name +:+ "() { [native code] }"
  | Some VObject => "[object Object]"
  | None => "undefined"
  end.

(** Names every object literal inherits from [Object.prototype]. *)
Definition inherited_functions : list string :=
  [ "__defineGetter__"; "__defineSetter__"; "hasOwnProperty";
    "__lookupGetter__"; "__lookupSetter__"; "isPrototypeOf";
    "propertyIsEnumerable"; "toString"; "valueOf"; "toLocaleString" ].

Definition Object_prototype (key : string) : option value :=
  if String.eqb key "constructor" then Some (VNative "Object")
  else if String.eqb key "__proto__" then Some VObject
  else if existsb (String.eqb key) inherited_functions then Some (VNative key)
  else None.

(** Property read [o[key]] on an object literal with own properties
    [own]: own properties first, then the prototype. *)
Fixpoint get (own : list (string * string)) (key : string) : option value :=
  match own with
  | [] => Object_prototype key
  | (k, v) :: rest => if String.eqb k key then Some (VString v) else get rest key
  end.

End Js.

(** ** Session storage *)

(** [Content] and [Part] of the Gemini SDK, as far as the server builds
    them: [{ role, parts: [{ text }] }]. *)
Record Part := { text : string }.
Record Content := { role : string; parts : list Part }.

Record ConversationSession := {
  history : list Content;
  createdAt : Z;
  lastUsed : Z;
  cwd : option string;
}.

(** [session.history = h; session.lastUsed = t] on a stored session. *)
Definition touch (s : ConversationSession) (h : list Content) (t : Z)
  : ConversationSession :=
  {| history := h; createdAt := createdAt s; lastUsed := t; cwd := cwd s |}.

(** [cleanupSessions] with the value [now] read from [Date.now()]: the
    [for ... of sessions.entries()] loop deletes, entry after entry, every
    session last used before [now - 60 * 60 * 1000]. *)
Definition expired (oneHourAgo : Z) (session : ConversationSession) : bool :=
  lastUsed session <? oneHourAgo.

Definition cleanup_loop (oneHourAgo : Z)
    (entries : list (string * ConversationSession))
    (sessions : gmap string ConversationSession)
  : gmap string ConversationSession :=
  foldl (λ acc entry,
           if expired oneHourAgo entry.2 then delete entry.1 acc else acc)
        sessions entries.

Definition cleanupSessions (now : Z) (sessions : gmap string ConversationSession)
  : gmap string ConversationSession :=
  let oneHourAgo := now - 60 * 60 * 1000 in
  cleanup_loop oneHourAgo (map_to_list sessions) sessions.

(** [generateConversationId]: [now] is [Date.now()] and [random36] is
    [Math.random().toString(36)]. *)
Definition generateConversationId (now : Z) (random36 : string) : string :=
  "gemini-" +:+ pretty now +:+ "-" +:+ Js.substring 2 9 random36.

(** ** Instruction composer *)

Record InstructionConfig := {
  cfg_cwd : option string;
  cfg_sandbox : option string;
  cfg_baseInstructions : option string;
  cfg_developerInstructions : option string;
}.

Definition newline : string := String (ascii_of_nat 10) EmptyString.

Definition DEFAULT_INSTRUCTIONS : string :=
  "You are an expert software engineer assistant powered by Gemini 3 Pro Preview."
  +:+ newline +:+
  "You help with code review, analysis, planning, and problem-solving."
  +:+ newline +:+
  "Provide clear, concise, and actionable responses."
  +:+ newline +:+
  "When reviewing code or plans, be thorough but practical.".

Definition sandboxDescriptions : list (string * string) :=
  [ ("read-only",
     "You are in read-only mode. You can analyze and review but cannot make changes.");
    ("workspace-write",
     "You can read and write within the workspace directory.");
    ("danger-full-access",
     "You have full access to read and write files.") ].

(** [buildSystemInstruction]: [parts] grows by [push] in program order and
    is joined at the end. *)
Definition buildSystemInstruction (config : InstructionConfig) : string :=
  let parts : list string := [] in
  let parts :=
    if Js.truthy (cfg_baseInstructions config)
    then parts ++ [Js.or_else (cfg_baseInstructions config) ""]
    else parts ++ [DEFAULT_INSTRUCTIONS] in
  let parts :=
    if Js.truthy (cfg_cwd config)
    then parts ++ [newline +:+ "Working directory: "
                   +:+ Js.or_else (cfg_cwd config) ""]
    else parts in
  let parts :=
    match cfg_sandbox config with
    | Some sandbox =>
        if negb (String.eqb sandbox "") then
          if Js.truthy_value (Js.get sandboxDescriptions sandbox)
          then parts ++ [newline +:+ "Access level: "
                         +:+ Js.to_string (Js.get sandboxDescriptions sandbox)]
          else parts
        else parts
    | None => parts
    end in
  let parts :=
    if Js.truthy (cfg_developerInstructions config)
    then parts ++ [newline +:+ "Developer Instructions:" +:+ newline
                   +:+ Js.or_else (cfg_developerInstructions config) ""]
    else parts in
  Js.join newline parts.

(** ** Model router *)

Definition IMAGE_MODEL_FAST : string := "gemini-2.5-flash-image".
Definition IMAGE_MODEL_PRO : string := "gemini-3-pro-image-preview".

Definition PRO_KEYWORDS : list string :=
  [ "nano banana pro"; "nanobanana pro"; "pro model";
    "infographic"; "diagram"; "chart"; "graph";
    "text"; "typography"; "font"; "lettering"; "writing";
    "slide"; "presentation"; "deck";
    "logo"; "brand"; "poster"; "flyer"; "banner";
    "document"; "page"; "layout";
    "high quality"; "high-quality"; "hq"; "4k";
    "detailed text"; "readable"; "legible" ].

Definition shouldUsePro (prompt : string) : bool :=
  let lower := Js.toLowerCase prompt in
  Js.some (λ keyword, Js.includes lower keyword) PRO_KEYWORDS.

(** ** The outside world *)

(** What a [catch] clause can receive: an [Error] object with its
    [message], or any other value with its [String(...)] rendering. *)
Inductive Thrown :=
| ErrorObject (message : string)
| OtherValue (rendered : string).

(** [ai.chats.create({ model, config, history })] followed by
    [chat.sendMessage({ message })]. *)
Record ChatCall := {
  chat_model : string;
  chat_systemInstruction : option string;
  chat_history : list Content;
  chat_message : string;
}.

(** [ai.models.generateImages({ model, prompt, config })]. *)
Record ImageCall := {
  img_model : string;
  img_prompt : string;
  img_numberOfImages : Z;
  img_aspectRatio : string;
}.

Inductive RemoteCall :=
| ChatSend (call : ChatCall)
| GenerateImages (call : ImageCall).

(** [generatedImage.image?.imageBytes]. *)
Record GeneratedImage := { imageBytes : option string }.

Record Image := { base64 : string; mimeType : string }.

(** Everything one dispatch reads from outside the server, in program
    order: the clock, the Gemini client, the random source, the file
    system. *)
Record World := {
  now_cleanup : Z;
  sendMessage : ChatCall → Thrown + option string;
  generateImages : ImageCall → Thrown + option (list GeneratedImage);
  now_id : Z;
  random36 : string;
  now_createdAt : Z;
  now_lastUsed : Z;
  existsSync : string → bool;
  mkdirSync : string → option Thrown;
  path_join : string → string → string;
  writeFileSync : string → string → option Thrown;
}.

(** The state of the server process: the [sessions] map, and the requests
    issued on the Gemini client so far, oldest first. *)
Record Server := {
  sessions : gmap string ConversationSession;
  wire : list RemoteCall;
}.

Definition initial : Server := {| sessions := ∅; wire := [] |}.

(** ** A monad for handler code: state and exceptions *)

Inductive Completion (A : Type) :=
| Normal (a : A)
| Abrupt (e : Thrown).
Arguments Normal {A} a.
Arguments Abrupt {A} e.

Definition Handler (A : Type) : Type := Server → Completion A * Server.

#[global] Instance handler_ret : MRet Handler := λ A a σ, (Normal a, σ).

#[global] Instance handler_bind : MBind Handler := λ A B k m σ,
  match m σ with
  | (Normal a, σ') => k a σ'
  | (Abrupt e, σ') => (Abrupt e, σ')
  end.

Definition throw {A} (e : Thrown) : Handler A := λ σ, (Abrupt e, σ).

(** [try { body } catch (error) { return handler(error) }], where the
    catch clause only builds a value. *)
Definition try_catch {A} (body : Handler A) (handler : Thrown → A)
  : Server → A * Server := λ σ,
  match body σ with
  | (Normal a, σ') => (a, σ')
  | (Abrupt e, σ') => (handler e, σ')
  end.

Definition get_sessions : Handler (gmap string ConversationSession) :=
  λ σ, (Normal (sessions σ), σ).

Definition put_sessions (m : gmap string ConversationSession) : Handler unit :=
  λ σ, (Normal tt, {| sessions := m; wire := wire σ |}).

(** A request on the Gemini client: it is put on the wire, and the answer
    or the failure comes from the world. *)
Definition remote {A} (call : RemoteCall) (answer : Thrown + A) : Handler A :=
  λ σ,
  let σ' := {| sessions := sessions σ; wire := wire σ ++ [call] |} in
  match answer with
  | inl e => (Abrupt e, σ')
  | inr a => (Normal a, σ')
  end.

(** A file-system call that returns nothing and may throw. *)
Definition effect (outcome : option Thrown) : Handler unit :=
  match outcome with
  | Some e => throw e
  | None => mret tt
  end.

(** ** Tool calls and their results *)

(** The argument bag of a tool call, read through the casts of the
    handler: the fields the three tools destructure. *)
Record Arguments := {
  arg_prompt : string;
  arg_cwd : option string;
  arg_sandbox : option string;
  arg_base_instructions : option string;
  arg_developer_instructions : option string;
  arg_model : option string;
  arg_conversationId : string;
  arg_numberOfImages : option Z;
  arg_aspectRatio : option string;
  arg_usePro : option bool;
  arg_outputPath : option string;
}.

Inductive ContentBlock :=
| TextBlock (body : string)
| ImageBlock (data : string) (mime : string).

(** The result envelope: [isError] absent is [false]; [_meta], when
    present, carries the conversation id. *)
Record CallToolResult := {
  content : list ContentBlock;
  isError : bool;
  meta_conversationId : option string;
}.

(** Options of [generateImage] and its result. *)
Record ImageOptions := {
  opt_numberOfImages : option Z;
  opt_aspectRatio : option string;
  opt_outputDir : option string;
  opt_usePro : option bool;
}.

Record ImageResult := {
  images : list Image;
  result_prompt : string;
  result_model : string;
}.

Definition dquote : string := String (ascii_of_nat 34) EmptyString.

(** [error instanceof Error ? error.message : String(error)]. *)
Definition errorMessage (error : Thrown) : string :=
  match error with
  | ErrorObject message => message
  | OtherValue rendered => rendered
  end.

Definition user_turn (prompt : string) : Content :=
  {| role := "user"; parts := [ {| text := prompt |} ] |}.

Definition model_turn (reply : option string) : Content :=
  {| role := "model"; parts := [ {| text := Js.or_else reply "" |} ] |}.

(** The loop over [response.generatedImages] of [generateImage]. *)
Fixpoint collect_images (generated : list GeneratedImage) (images : list Image)
  : list Image :=
  match generated with
  | [] => images
  | generatedImage :: rest =>
      if Js.truthy (imageBytes generatedImage)
      then collect_images rest
             (images ++ [ {| base64 := Js.or_else (imageBytes generatedImage) "";
                             mimeType := "image/png" |} ])
      else collect_images rest images
  end.

(** The request that [generateImage] builds from its options: the
    defaults, the tier, and the fields of the [generateImages] call. *)
Definition image_call (prompt : string) (options : ImageOptions) : ImageCall :=
  let numberOfImages := Js.or_else_num (opt_numberOfImages options) 1 in
  let aspectRatio := Js.or_else (opt_aspectRatio options) "1:1" in
  let usePro := Js.nullish (opt_usePro options) (shouldUsePro prompt) in
  let model := if usePro then IMAGE_MODEL_PRO else IMAGE_MODEL_FAST in
  {| img_model := model;
     img_prompt := prompt;
     img_numberOfImages := numberOfImages;
     img_aspectRatio := aspectRatio |}.

Section Dispatcher.

(** [process.env.GEMINI_MODEL]. *)
Variable GEMINI_MODEL : option string.

Definition MODEL : string := Js.or_else GEMINI_MODEL "gemini-3-pro-preview".

(** The chat that [callGemini] creates and the message it sends:
    [config] is [{ systemInstruction }] when the instruction is truthy. *)
Definition chat_request (prompt : string) (history : list Content)
    (systemInstruction : option string) : ChatCall :=
  {| chat_model := MODEL;
     chat_systemInstruction :=
       if Js.truthy systemInstruction then systemInstruction else None;
     chat_history := history;
     chat_message := prompt |}.

(** [callGemini(prompt, history, systemInstruction)]. *)
Definition callGemini (w : World) (prompt : string) (history : list Content)
    (systemInstruction : option string) : Handler (string * list Content) :=
  let call := chat_request prompt history systemInstruction in
  response_text ← remote (ChatSend call) (sendMessage w call);
  let newHistory :=
    history ++ [ user_turn prompt; model_turn response_text ] in
  mret (Js.or_else response_text "", newHistory).

(** [generateImage(prompt, options)]. *)
Definition generateImage (w : World) (prompt : string) (options : ImageOptions)
  : Handler ImageResult :=
  let call := image_call prompt options in
  let model := img_model call in
  response ← remote (GenerateImages call) (generateImages w call);
  let images :=
    match response with
    | Some generated => collect_images generated []
    | None => []
    end in
  mret {| images := images; result_prompt := prompt; result_model := model |}.

(** The loop that writes the images under [outputPath]; [i] is the loop
    index. *)
Fixpoint save_images (w : World) (outputPath safePrompt : string)
    (remaining : list Image) (i : nat) (savedPaths : list string)
  : Handler (list string) :=
  match remaining with
  | [] => mret savedPaths
  | image :: rest =>
      let filename := safePrompt +:+ "_" +:+ pretty (i + 1)%nat +:+ ".png" in
      let fullPath := path_join w outputPath filename in
      _ ← effect (writeFileSync w fullPath (base64 image));
      save_images w outputPath safePrompt rest (S i) (savedPaths ++ [fullPath])
  end.

Definition image_block (img : Image) : ContentBlock :=
  ImageBlock (base64 img) (mimeType img).

(** The [gemini] branch. *)
Definition tool_gemini (w : World) (args : Arguments) : Handler CallToolResult :=
  let systemInstruction :=
    buildSystemInstruction
      {| cfg_cwd := arg_cwd args;
         cfg_sandbox := arg_sandbox args;
         cfg_baseInstructions := arg_base_instructions args;
         cfg_developerInstructions := arg_developer_instructions args |} in
  result ← callGemini w (arg_prompt args) [] (Some systemInstruction);
  let conversationId := generateConversationId (now_id w) (random36 w) in
  store ← get_sessions;
  _ ← put_sessions
        (<[ conversationId :=
              {| history := result.2;
                 createdAt := now_createdAt w;
                 lastUsed := now_lastUsed w;
                 cwd := arg_cwd args |} ]> store);
  mret {| content := [ TextBlock result.1 ];
          isError := false;
          meta_conversationId := Some conversationId |}.

(** The [gemini-reply] branch.  The two assignments to the fields of
    [session] update the object held by the map. *)
Definition tool_gemini_reply (w : World) (args : Arguments)
  : Handler CallToolResult :=
  let conversationId := arg_conversationId args in
  let prompt := arg_prompt args in
  store ← get_sessions;
  match store !! conversationId with
  | None =>
      mret {| content :=
                [ TextBlock ("Error: Conversation " +:+ conversationId +:+
                    " not found. It may have expired or never existed.") ];
              isError := true;
              meta_conversationId := None |}
  | Some session =>
      let systemInstruction :=
        buildSystemInstruction
          {| cfg_cwd := cwd session;
             cfg_sandbox := None;
             cfg_baseInstructions := None;
             cfg_developerInstructions := None |} in
      result ← callGemini w prompt (history session) (Some systemInstruction);
      store ← get_sessions;
      _ ← put_sessions
            (<[ conversationId := touch session result.2 (now_lastUsed w) ]> store);
      mret {| content := [ TextBlock result.1 ];
              isError := false;
              meta_conversationId := Some conversationId |}
  end.

(** The [gemini-image] branch. *)
Definition tool_gemini_image (w : World) (args : Arguments)
  : Handler CallToolResult :=
  let prompt := arg_prompt args in
  result ← generateImage w prompt
             {| opt_numberOfImages := Some (Js.or_else_num (arg_numberOfImages args) 1);
                opt_aspectRatio := Some (Js.or_else (arg_aspectRatio args) "1:1");
                opt_outputDir := None;
                opt_usePro := Some (Js.or_false (arg_usePro args)) |};
  savedPaths ←
    (if (Js.truthy (arg_outputPath args)
         && Nat.ltb 0 (length (images result)))%bool
     then
       let outputPath := Js.or_else (arg_outputPath args) "" in
       _ ← (if negb (existsSync w outputPath)
            then effect (mkdirSync w outputPath)
            else mret tt);
       let safePrompt := Js.replace_non_alnum (Js.slice0 50 prompt) in
       save_images w outputPath safePrompt (images result) 0 []
     else mret []);
  let summary :=
    "Generated " +:+ pretty (length (images result)) +:+ " image(s) using "
    +:+ result_model result +:+ " for prompt: " +:+ dquote +:+ prompt +:+ dquote
    +:+ (if Nat.ltb 0 (length savedPaths)
         then newline +:+ newline +:+ "Saved to:" +:+ newline
              +:+ Js.join newline savedPaths
         else "") in
  mret {| content := TextBlock summary :: map image_block (images result);
          isError := false;
          meta_conversationId := None |}.

(** The body of the [try] block: dispatch on the tool name. *)
Definition tool_body (w : World) (name : string) (args : Arguments)
  : Handler CallToolResult :=
  if String.eqb name "gemini" then tool_gemini w args
  else if String.eqb name "gemini-reply" then tool_gemini_reply w args
  else if String.eqb name "gemini-image" then tool_gemini_image w args
  else mret {| content := [ TextBlock ("Unknown tool: " +:+ name) ];
               isError := true;
               meta_conversationId := None |}.

Definition api_error (error : Thrown) : CallToolResult :=
  {| content := [ TextBlock ("Gemini API error: " +:+ errorMessage error) ];
     isError := true;
     meta_conversationId := None |}.

(** The [CallToolRequestSchema] handler: sweep, then the [try] block with
    its [catch] clause. *)
Definition handleCallTool (w : World) (name : string) (args : Arguments)
  : Server → CallToolResult * Server := λ σ,
  let swept :=
    {| sessions := cleanupSessions (now_cleanup w) (sessions σ);
       wire := wire σ |} in
  try_catch (tool_body w name args) api_error swept.

End Dispatcher.

(** ** The specification's vocabulary *)

(** The instruction composer in the words of the specification: the
    opening block is [baseInstructions] when supplied and the default
    persona otherwise; each further supplied field appends its labelled
    block; the access description is appended only for a recognized
    policy; the blocks are joined with newlines. *)
Definition recognized_policy (policy : string) : option string :=
  if String.eqb policy "read-only" then
    Some "You are in read-only mode. You can analyze and review but cannot make changes."
  else if String.eqb policy "workspace-write" then
    Some "You can read and write within the workspace directory."
  else if String.eqb policy "danger-full-access" then
    Some "You have full access to read and write files."
  else None.

Definition opening_block (baseInstructions : option string) : string :=
  match baseInstructions with
  | Some base => base
  | None => DEFAULT_INSTRUCTIONS
  end.

Definition cwd_block (workingDirectory : option string) : list string :=
  match workingDirectory with
  | Some dir => [ newline +:+ "Working directory: " +:+ dir ]
  | None => []
  end.

Definition access_block (accessPolicy : option string) : list string :=
  match accessPolicy with
  | Some policy =>
      match recognized_policy policy with
      | Some description => [ newline +:+ "Access level: " +:+ description ]
      | None => []
      end
  | None => []
  end.

Definition developer_block (developerInstructions : option string) : list string :=
  match developerInstructions with
  | Some dev => [ newline +:+ "Developer Instructions:" +:+ newline +:+ dev ]
  | None => []
  end.

Definition compose (baseInstructions workingDirectory accessPolicy
                    developerInstructions : option string) : string :=
  String.concat newline
    (opening_block baseInstructions
       :: cwd_block workingDirectory
       ++ access_block accessPolicy
       ++ developer_block developerInstructions).

(** A field that is supplied with the empty string counts as absent. *)
Definition non_empty (field : option string) : option string :=
  match field with
  | Some s => if String.eqb s "" then None else Some s
  | None => None
  end.

(** The tier of an image request, read off the model identifier. *)
Inductive Tier := fast | advanced.

Definition tier_of (model : string) : option Tier :=
  if String.eqb model IMAGE_MODEL_PRO then Some advanced
  else if String.eqb model IMAGE_MODEL_FAST then Some fast
  else None.

(** A history made of complete user/model pairs: even length, and the
    turn at index [i] is a user turn when [i] is even and a model turn when
    [i] is odd. *)
Definition expected_role (i : nat) : string :=
  if Nat.even i then "user" else "model".

Definition alternating (h : list Content) : Prop :=
  ∀ i turn, h !! i = Some turn → role turn = expected_role i.

Definition complete_pairs (h : list Content) : Prop :=
  Nat.Even (length h) ∧ alternating h.

Definition store_ok (store : gmap string ConversationSession) : Prop :=
  ∀ id session, store !! id = Some session → complete_pairs (history session).

(** The same tool arguments with another [model] argument. *)
Definition with_model (model : option string) (args : Arguments) : Arguments :=
  {| arg_prompt := arg_prompt args;
     arg_cwd := arg_cwd args;
     arg_sandbox := arg_sandbox args;
     arg_base_instructions := arg_base_instructions args;
     arg_developer_instructions := arg_developer_instructions args;
     arg_model := model;
     arg_conversationId := arg_conversationId args;
     arg_numberOfImages := arg_numberOfImages args;
     arg_aspectRatio := arg_aspectRatio args;
     arg_usePro := arg_usePro args;
     arg_outputPath := arg_outputPath args |}.

(** The options the dispatcher hands to [generateImage]. *)
Definition dispatched_options (args : Arguments) : ImageOptions :=
  {| opt_numberOfImages := Some (Js.or_else_num (arg_numberOfImages args) 1);
     opt_aspectRatio := Some (Js.or_else (arg_aspectRatio args) "1:1");
     opt_outputDir := None;
     opt_usePro := Some (Js.or_false (arg_usePro args)) |}.

(** The configurations the two chat tools compose their instruction from,
    and the session the initial turn stores. *)
Definition initial_config (args : Arguments) : InstructionConfig :=
  {| cfg_cwd := arg_cwd args;
     cfg_sandbox := arg_sandbox args;
     cfg_baseInstructions := arg_base_instructions args;
     cfg_developerInstructions := arg_developer_instructions args |}.

Definition stored_config (session : ConversationSession) : InstructionConfig :=
  {| cfg_cwd := cwd session;
     cfg_sandbox := None;
     cfg_baseInstructions := None;
     cfg_developerInstructions := None |}.

Definition new_session (w : World) (args : Arguments) (reply : option string)
  : ConversationSession :=
  {| history := [ user_turn (arg_prompt args); model_turn reply ];
     createdAt := now_createdAt w;
     lastUsed := now_lastUsed w;
     cwd := arg_cwd args |}.

Definition not_found (conversationId : string) : CallToolResult :=
  {| content :=
       [ TextBlock ("Error: Conversation " +:+ conversationId +:+
           " not found. It may have expired or never existed.") ];
     isError := true;
     meta_conversationId := None |}.

Definition reply_result (reply : option string) (conversationId : string)
  : CallToolResult :=
  {| content := [ TextBlock (Js.or_else reply "") ];
     isError := false;
     meta_conversationId := Some conversationId |}.

(** The requests a dispatch adds to the wire. *)
Definition issued (before after : Server) : list RemoteCall :=
  drop (length (wire before)) (wire after).

(** ** Sample worlds and calls *)

Definition echo_world : World :=
  {| now_cleanup := 1700003600000;
     sendMessage := λ call, inr (Some ("echo: " +:+ chat_message call));
     generateImages := λ call, inr (Some [ {| imageBytes := Some "aGVsbG8=" |} ]);
     now_id := 1700003600001;
     random36 := "0.4fzyo82mvyr";
     now_createdAt := 1700003600002;
     now_lastUsed := 1700003600003;
     existsSync := λ _, true;
     mkdirSync := λ _, None;
     path_join := λ dir file, dir +:+ "/" +:+ file;
     writeFileSync := λ _ _, None |}.

Definition failing_world : World :=
  {| now_cleanup := 1700003600000;
     sendMessage := λ _, inl (ErrorObject "quota exceeded");
     generateImages := λ _, inl (ErrorObject "quota exceeded");
     now_id := 1700003600001;
     random36 := "0.4fzyo82mvyr";
     now_createdAt := 1700003600002;
     now_lastUsed := 1700003600003;
     existsSync := λ _, true;
     mkdirSync := λ _, None;
     path_join := λ dir file, dir +:+ "/" +:+ file;
     writeFileSync := λ _ _, None |}.

Definition prompt_only (prompt : string) : Arguments :=
  {| arg_prompt := prompt;
     arg_cwd := None;
     arg_sandbox := None;
     arg_base_instructions := None;
     arg_developer_instructions := None;
     arg_model := None;
     arg_conversationId := "";
     arg_numberOfImages := None;
     arg_aspectRatio := None;
     arg_usePro := None;
     arg_outputPath := None |}.

Definition image_args (prompt : string) (count : option Z) (usePro : option bool)
  : Arguments :=
  {| arg_prompt := prompt;
     arg_cwd := None;
     arg_sandbox := None;
     arg_base_instructions := None;
     arg_developer_instructions := None;
     arg_model := None;
     arg_conversationId := "";
     arg_numberOfImages := count;
     arg_aspectRatio := None;
     arg_usePro := usePro;
     arg_outputPath := None |}.

Definition reply_args (conversationId prompt : string) : Arguments :=
  {| arg_prompt := prompt;
     arg_cwd := None;
     arg_sandbox := None;
     arg_base_instructions := None;
     arg_developer_instructions := None;
     arg_model := None;
     arg_conversationId := conversationId;
     arg_numberOfImages := None;
     arg_aspectRatio := None;
     arg_usePro := None;
     arg_outputPath := None |}.

Definition old_session : ConversationSession :=
  {| history := [ user_turn "hi"; model_turn (Some "hello") ];
     createdAt := 1690000000000;
     lastUsed := 1690000000000;
     cwd := Some "/srv/app" |}.

Definition live_session : ConversationSession :=
  {| history := [ user_turn "hi"; model_turn (Some "hello") ];
     createdAt := 1700003000000;
     lastUsed := 1700003000000;
     cwd := Some "/srv/app" |}.

Definition two_sessions : Server :=
  {| sessions := <[ "gemini-old" := old_session ]>
                   (<[ "gemini-live" := live_session ]> ∅);
     wire := [] |}.

(** ** The tool catalogue and further vocabulary *)

(** The [name] fields of the entries of [tools], in order: what the
    [ListToolsRequestSchema] handler advertises. *)
Definition tool_names : list string :=
  [ "gemini"; "gemini-reply"; "gemini-image" ].

Definition unknown_tool (name : string) : CallToolResult :=
  {| content := [ TextBlock ("Unknown tool: " +:+ name) ];
     isError := true;
     meta_conversationId := None |}.

(** A generated image that carries bytes, and the [Image] pushed for it. *)
Definition has_bytes (generatedImage : GeneratedImage) : bool :=
  Js.truthy (imageBytes generatedImage).

Definition pushed_image (generatedImage : GeneratedImage) : Image :=
  {| base64 := Js.or_else (imageBytes generatedImage) "";
     mimeType := "image/png" |}.

(** Characters of a string. *)
Fixpoint chars (s : string) : list ascii :=
  match s with
  | EmptyString => []
  | String c r => c :: chars r
  end.

Definition file_name_char (c : ascii) : bool :=
  (Js.alnum c || Ascii.eqb c "_")%bool.

Definition is_digit (c : ascii) : bool :=
  let n := nat_of_ascii c in (Nat.leb 48 n && Nat.leb n 57)%bool.

(** The file written for the image at loop index [i]. *)
Definition image_file (w : World) (outputPath safePrompt : string) (i : nat)
  : string :=
  path_join w outputPath (safePrompt +:+ "_" +:+ pretty (i + 1)%nat +:+ ".png").

(** The images [generateImage] returns for a response. *)
Definition returned_images (response : option (list GeneratedImage)) : list Image :=
  match response with
  | Some generated => collect_images generated []
  | None => []
  end.

(** The saving step of the [gemini-image] branch, for the images of the
    result: the value of [savedPaths] after the [if (outputPath && ...)]
    statement. *)
Definition save_generated (w : World) (args : Arguments) (generated : list Image)
  : Handler (list string) :=
  if (Js.truthy (arg_outputPath args) && Nat.ltb 0 (length generated))%bool
  then
    let outputPath := Js.or_else (arg_outputPath args) "" in
    _ ← (if negb (existsSync w outputPath)
         then effect (mkdirSync w outputPath)
         else mret tt);
    let safePrompt := Js.replace_non_alnum (Js.slice0 50 (arg_prompt args)) in
    save_images w outputPath safePrompt generated 0 []
  else mret [].

(** The envelope of a successful [gemini-image] call. *)
Definition image_envelope (prompt model : string) (generated : list Image)
    (savedPaths : list string) : CallToolResult :=
  {| content :=
       TextBlock
         ("Generated " +:+ pretty (length generated) +:+ " image(s) using "
          +:+ model +:+ " for prompt: " +:+ dquote +:+ prompt +:+ dquote
          +:+ (if Nat.ltb 0 (length savedPaths)
               then newline +:+ newline +:+ "Saved to:" +:+ newline
                    +:+ Js.join newline savedPaths
               else ""))
       :: map image_block generated;
     isError := false;
     meta_conversationId := None |}.

(** A world whose clock is two hours past that of [echo_world]. *)
Definition late_world : World :=
  {| now_cleanup := 1700010800000;
     sendMessage := λ call, inr (Some ("echo: " +:+ chat_message call));
     generateImages := λ call, inr (Some [ {| imageBytes := Some "aGVsbG8=" |} ]);
     now_id := 1700010800001;
     random36 := "0.9k2jd71xq";
     now_createdAt := 1700010800002;
     now_lastUsed := 1700010800003;
     existsSync := λ _, true;
     mkdirSync := λ _, None;
     path_join := λ dir file, dir +:+ "/" +:+ file;
     writeFileSync := λ _ _, None |}.

(** A world whose disk refuses every write. *)
Definition full_disk_world : World :=
  {| now_cleanup := 1700003600000;
     sendMessage := λ call, inr (Some ("echo: " +:+ chat_message call));
     generateImages :=
       λ call, inr (Some [ {| imageBytes := Some "aGVsbG8=" |};
                           {| imageBytes := None |};
                           {| imageBytes := Some "d29ybGQ=" |} ]);
     now_id := 1700003600001;
     random36 := "0.4fzyo82mvyr";
     now_createdAt := 1700003600002;
     now_lastUsed := 1700003600003;
     existsSync := λ _, false;
     mkdirSync := λ _, None;
     path_join := λ dir file, dir +:+ "/" +:+ file;
     writeFileSync := λ _ _, Some (ErrorObject "ENOSPC: no space left on device") |}.

(** ** Overlapping dispatches *)

(** The handler runs to its first [await], which is the call on the Gemini
    client, and is suspended there; it is resumed with the answer and then
    runs to its [return].  Between the two halves other dispatches may
    begin and may be resumed.  (The image branch has two more [await]s, on
    the imports of [fs] and [path]; what follows them reads and writes
    neither [sessions] nor the Gemini client, so its second half is one
    step here.)

    A suspended reply holds the session object it got from [sessions.get]
    and the [history] array it passed to [callGemini]; after the [await] it
    assigns to the fields of that object.  The object is still the one in
    the map unless its id has been swept, or set again by an initial turn,
    in the meantime: [objects] gives the identity of the object held under
    each id (it counts only for ids that are in [sessions]), and a
    suspended reply remembers the identity it saw. *)
Inductive Suspended :=
| AwaitInitial (args : Arguments) (call : ChatCall)
| AwaitReply (args : Arguments) (call : ChatCall) (object : option nat)
    (session : ConversationSession)
| AwaitImage (args : Arguments) (call : ImageCall).

Record Machine := {
  server : Server;
  objects : gmap string nat;
  created : nat;
  suspended : list Suspended;
}.

Definition start : Machine :=
  {| server := initial; objects := ∅; created := 0; suspended := [] |}.

(** Whether the object a suspended reply holds is still the one stored
    under [id]. *)
Definition attached (m : Machine) (id : string) (object : option nat) : bool :=
  match sessions (server m) !! id with
  | Some _ => bool_decide (objects m !! id = object)
  | None => false
  end.

Inductive Event :=
| Begin (w : World) (name : string) (args : Arguments)
| Resume (w : World) (k : nat).

Definition is_begin (event : Event) : bool :=
  match event with
  | Begin _ _ _ => true
  | Resume _ _ => false
  end.

Definition is_initial_begin (event : Event) : bool :=
  match event with
  | Begin _ name _ => String.eqb name "gemini"
  | Resume _ _ => false
  end.

Definition is_initial (handler : Suspended) : bool :=
  match handler with
  | AwaitInitial _ _ => true
  | _ => false
  end.

Section Interleaving.

Variable GEMINI_MODEL : option string.

(** The first half of the handler: [cleanupSessions()], then the branch of
    the tool up to the [await], or to the [return] when there is none.
    The result is the envelope when the handler has returned. *)
Definition begin (w : World) (name : string) (args : Arguments) (m : Machine)
  : option CallToolResult * Machine :=
  let store := cleanupSessions (now_cleanup w) (sessions (server m)) in
  let sent := wire (server m) in
  if String.eqb name "gemini" then
    let systemInstruction :=
      buildSystemInstruction
        {| cfg_cwd := arg_cwd args;
           cfg_sandbox := arg_sandbox args;
           cfg_baseInstructions := arg_base_instructions args;
           cfg_developerInstructions := arg_developer_instructions args |} in
    let call :=
      chat_request GEMINI_MODEL (arg_prompt args) [] (Some systemInstruction) in
    (None,
     {| server := {| sessions := store; wire := sent ++ [ ChatSend call ] |};
        objects := objects m;
        created := created m;
        suspended := suspended m ++ [ AwaitInitial args call ] |})
  else if String.eqb name "gemini-reply" then
    let conversationId := arg_conversationId args in
    match store !! conversationId with
    | None =>
        (Some {| content :=
                   [ TextBlock ("Error: Conversation " +:+ conversationId +:+
                       " not found. It may have expired or never existed.") ];
                 isError := true;
                 meta_conversationId := None |},
         {| server := {| sessions := store; wire := sent |};
            objects := objects m;
            created := created m;
            suspended := suspended m |})
    | Some session =>
        let systemInstruction :=
          buildSystemInstruction
            {| cfg_cwd := cwd session;
               cfg_sandbox := None;
               cfg_baseInstructions := None;
               cfg_developerInstructions := None |} in
        let call :=
          chat_request GEMINI_MODEL (arg_prompt args) (history session)
            (Some systemInstruction) in
        (None,
         {| server := {| sessions := store; wire := sent ++ [ ChatSend call ] |};
            objects := objects m;
            created := created m;
            suspended :=
              suspended m
              ++ [ AwaitReply args call (objects m !! conversationId) session ] |})
    end
  else if String.eqb name "gemini-image" then
    let call :=
      image_call (arg_prompt args)
        {| opt_numberOfImages := Some (Js.or_else_num (arg_numberOfImages args) 1);
           opt_aspectRatio := Some (Js.or_else (arg_aspectRatio args) "1:1");
           opt_outputDir := None;
           opt_usePro := Some (Js.or_false (arg_usePro args)) |} in
    (None,
     {| server := {| sessions := store; wire := sent ++ [ GenerateImages call ] |};
        objects := objects m;
        created := created m;
        suspended := suspended m ++ [ AwaitImage args call ] |})
  else
    (Some {| content := [ TextBlock ("Unknown tool: " +:+ name) ];
             isError := true;
             meta_conversationId := None |},
     {| server := {| sessions := store; wire := sent |};
        objects := objects m;
        created := created m;
        suspended := suspended m |}).

(** The second half of the handler at position [k] of the suspended ones:
    the answer of the Gemini client arrives and the handler runs to its
    [return], or to its [catch] clause when the answer is a failure.
    [callGemini] extends the [history] array it was called with, which is
    [chat_history call].  A reply assigns [history] and [lastUsed] of its
    session object; [createdAt] and [cwd] of an object are never assigned
    after its creation, so they are the ones read at lookup. *)
Definition resume (w : World) (k : nat) (m : Machine)
  : option CallToolResult * Machine :=
  match suspended m !! k with
  | None => (None, m)
  | Some handler =>
      let others := take k (suspended m) ++ drop (S k) (suspended m) in
      let unchanged :=
        {| server := server m; objects := objects m; created := created m;
           suspended := others |} in
      match handler with
      | AwaitInitial args call =>
          match sendMessage w call with
          | inl e => (Some (api_error e), unchanged)
          | inr response_text =>
              let newHistory :=
                chat_history call
                ++ [ user_turn (arg_prompt args); model_turn response_text ] in
              let conversationId :=
                generateConversationId (now_id w) (random36 w) in
              (Some {| content := [ TextBlock (Js.or_else response_text "") ];
                       isError := false;
                       meta_conversationId := Some conversationId |},
               {| server :=
                    {| sessions :=
                         <[ conversationId :=
                              {| history := newHistory;
                                 createdAt := now_createdAt w;
                                 lastUsed := now_lastUsed w;
                                 cwd := arg_cwd args |} ]> (sessions (server m));
                       wire := wire (server m) |};
                  objects := <[ conversationId := created m ]> (objects m);
                  created := S (created m);
                  suspended := others |})
          end
      | AwaitReply args call object session =>
          match sendMessage w call with
          | inl e => (Some (api_error e), unchanged)
          | inr response_text =>
              let conversationId := arg_conversationId args in
              let newHistory :=
                chat_history call
                ++ [ user_turn (arg_prompt args); model_turn response_text ] in
              (Some {| content := [ TextBlock (Js.or_else response_text "") ];
                       isError := false;
                       meta_conversationId := Some conversationId |},
               {| server :=
                    {| sessions :=
                         if attached m conversationId object
                         then <[ conversationId :=
                                   touch session newHistory (now_lastUsed w) ]>
                                (sessions (server m))
                         else sessions (server m);
                       wire := wire (server m) |};
                  objects := objects m;
                  created := created m;
                  suspended := others |})
          end
      | AwaitImage args call =>
          match generateImages w call with
          | inl e => (Some (api_error e), unchanged)
          | inr response =>
              match (save_generated w args (returned_images response) (server m)).1
              with
              | Normal savedPaths =>
                  (Some (image_envelope (arg_prompt args) (img_model call)
                           (returned_images response) savedPaths), unchanged)
              | Abrupt e => (Some (api_error e), unchanged)
              end
          end
      end
  end.

Definition step (m : Machine) (event : Event) : option CallToolResult * Machine :=
  match event with
  | Begin w name args => begin w name args m
  | Resume w k => resume w k m
  end.

(** The machine after the events of a schedule, in order. *)
Definition execute (events : list Event) (m : Machine) : Machine :=
  foldl (λ acc event, (step acc event).2) m events.

End Interleaving.

(** What every reachable machine satisfies: stored histories, histories
    held by suspended replies and histories sent are complete pairs, and a
    suspended handler carries the request it has issued. *)
Definition suspended_ok (handler : Suspended) : Prop :=
  match handler with
  | AwaitInitial args call =>
      chat_history call = [] ∧ chat_message call = arg_prompt args
  | AwaitReply args call object session =>
      chat_history call = history session
      ∧ chat_message call = arg_prompt args
      ∧ complete_pairs (history session)
  | AwaitImage args call => True
  end.

Definition machine_ok (m : Machine) : Prop :=
  store_ok (sessions (server m))
  ∧ Forall suspended_ok (suspended m)
  ∧ (∀ request, ChatSend request ∈ wire (server m) →
       complete_pairs (chat_history request)).

(** A schedule in which two replies to one conversation overlap: the
    initial turn runs, both replies begin, then both are resumed. *)
Definition overlapping_replies : list Event :=
  [ Begin echo_world "gemini" (prompt_only "hello");
    Resume echo_world 0;
    Begin echo_world "gemini-reply"
      (reply_args "gemini-1700003600001-4fzyo82" "first");
    Begin echo_world "gemini-reply"
      (reply_args "gemini-1700003600001-4fzyo82" "second");
    Resume echo_world 0 ].

(** ** Checks on concrete inputs *)

Example shouldUsePro_infographic :
  shouldUsePro "Create an infographic of X" = true.
Proof. reflexivity. Qed.

Example shouldUsePro_cat : shouldUsePro "a cute cat" = false.
Proof. reflexivity. Qed.

Example shouldUsePro_inside_a_word : shouldUsePro "A CONTEXT switch" = true.
Proof. reflexivity. Qed.

Example build_default :
  buildSystemInstruction
    {| cfg_cwd := None; cfg_sandbox := None;
       cfg_baseInstructions := None; cfg_developerInstructions := None |}
  = DEFAULT_INSTRUCTIONS.
Proof. reflexivity. Qed.

Example build_all_fields :
  buildSystemInstruction
    {| cfg_cwd := Some "/srv/app"; cfg_sandbox := Some "read-only";
       cfg_baseInstructions := Some "Be brief.";
       cfg_developerInstructions := Some "Use tabs." |}
  = "Be brief." +:+ newline +:+ newline +:+ "Working directory: /srv/app"
    +:+ newline +:+ newline
    +:+ "Access level: You are in read-only mode. You can analyze and review but cannot make changes."
    +:+ newline +:+ newline +:+ "Developer Instructions:" +:+ newline +:+ "Use tabs.".
Proof. reflexivity. Qed.

Example conversation_id :
  generateConversationId 1700003600001 "0.4fzyo82mvyr" = "gemini-1700003600001-4fzyo82".
Proof. reflexivity. Qed.

Example sweep_two_sessions :
  map_to_list (cleanupSessions 1700003600000 (sessions two_sessions))
  = [ ("gemini-live", live_session) ].
Proof. vm_compute. reflexivity. Qed.

(** ** Session store: the sweep *)

Section Sweep.

Variable cutoff : Z.

Lemma cleanup_loop_cons entry entries (m : gmap string ConversationSession) :
  cleanup_loop cutoff (entry :: entries) m
  = cleanup_loop cutoff entries
      (if expired cutoff entry.2 then delete entry.1 m else m).
Proof. reflexivity. Qed.

(** A session that is not in the map does not come back. *)
Lemma cleanup_loop_absent entries (m : gmap string ConversationSession) id :
  m !! id = None → cleanup_loop cutoff entries m !! id = None.
Proof.
  revert m. induction entries as [|[k v] entries IH]; intros m Hm.
  - exact Hm.
  - rewrite cleanup_loop_cons. apply IH. simpl.
    destruct (expired cutoff v); [|exact Hm].
    destruct (decide (k = id)) as [->|Hne].
    + apply lookup_delete_eq.
    + by rewrite lookup_delete_ne.
Qed.

(** An expired entry met by the loop is deleted. *)
Lemma cleanup_loop_expired entries (m : gmap string ConversationSession) id s :
  (id, s) ∈ entries → expired cutoff s = true →
  cleanup_loop cutoff entries m !! id = None.
Proof.
  revert m. induction entries as [|[k v] entries IH]; intros m Hin Hexp.
  - by apply not_elem_of_nil in Hin.
  - rewrite cleanup_loop_cons. apply elem_of_cons in Hin as [Heq|Hin].
    + injection Heq as <- <-. simpl. rewrite Hexp.
      apply cleanup_loop_absent, lookup_delete_eq.
    + by apply IH.
Qed.

(** The loop never touches an id whose entries are all fresh. *)
Lemma cleanup_loop_kept entries (m : gmap string ConversationSession) id :
  (∀ s, (id, s) ∈ entries → expired cutoff s = false) →
  cleanup_loop cutoff entries m !! id = m !! id.
Proof.
  revert m. induction entries as [|[k v] entries IH]; intros m Hfresh.
  - reflexivity.
  - rewrite cleanup_loop_cons, IH.
    + simpl. destruct (expired cutoff v) eqn:Hv; [|reflexivity].
      destruct (decide (k = id)) as [->|Hne].
      * rewrite (Hfresh v) in Hv; [discriminate|]. apply elem_of_cons. by left.
      * by rewrite lookup_delete_ne.
    + intros s Hs. apply Hfresh, elem_of_cons. by right.
Qed.

End Sweep.

Lemma cleanupSessions_lookup now (m : gmap string ConversationSession) id :
  cleanupSessions now m !! id
  = match m !! id with
    | Some s => if lastUsed s <? now - 3600000 then None else Some s
    | None => None
    end.
Proof.
  unfold cleanupSessions. change (60 * 60 * 1000) with 3600000.
  destruct (m !! id) as [s|] eqn:Hm.
  - destruct (lastUsed s <? now - 3600000) eqn:Hs.
    + apply (cleanup_loop_expired _ _ _ _ s); [|exact Hs].
      by apply elem_of_map_to_list.
    + rewrite cleanup_loop_kept; [exact Hm|].
      intros s' Hs'. apply elem_of_map_to_list in Hs'.
      rewrite Hm in Hs'. injection Hs' as <-. exact Hs.
  - by apply cleanup_loop_absent.
Qed.

Lemma cleanupSessions_subset now (m : gmap string ConversationSession) id s :
  cleanupSessions now m !! id = Some s → m !! id = Some s.
Proof.
  rewrite cleanupSessions_lookup. destruct (m !! id) as [s'|]; [|done].
  destruct (lastUsed s' <? now - 3600000); [done|]. by intros [= ->].
Qed.

(** C4. For every store and every [now], the sweep removes exactly the
    sessions whose [lastUsed] is strictly older than [now] minus one hour:
    every such session is gone from the store, every session whose
    [lastUsed] is within the hour is still there with its state unchanged,
    and the swept store holds nothing else. *)
Theorem sweep_removes_exactly_the_expired
    (now : Z) (store : gmap string ConversationSession) :
  let swept := cleanupSessions now store in
  (∀ id session,
     store !! id = Some session →
     lastUsed session < now - 60 * 60 * 1000 →
     swept !! id = None)
  ∧ (∀ id session,
       store !! id = Some session →
       now - 60 * 60 * 1000 ≤ lastUsed session →
       swept !! id = Some session)
  ∧ (∀ id session,
       swept !! id = Some session →
       store !! id = Some session ∧ now - 60 * 60 * 1000 ≤ lastUsed session).
Proof.
  intros swept. subst swept. change (60 * 60 * 1000) with 3600000.
  split; [|split].
  - intros id session Hid Hold. rewrite cleanupSessions_lookup, Hid.
    by rewrite (proj2 (Z.ltb_lt _ _) Hold).
  - intros id session Hid Hfresh. rewrite cleanupSessions_lookup, Hid.
    by rewrite (proj2 (Z.ltb_ge _ _) Hfresh).
  - intros id session. rewrite cleanupSessions_lookup.
    destruct (store !! id) as [stored|]; [|discriminate].
    destruct (lastUsed stored <? now - 3600000) eqn:Hcmp; [discriminate|].
    intros [= ->]. split; [reflexivity|]. by apply Z.ltb_ge.
Qed.

Lemma sweep_removes_exactly_the_expired_witness :
  cleanupSessions 1700003600000 (sessions two_sessions) !! "gemini-old" = None
  ∧ cleanupSessions 1700003600000 (sessions two_sessions) !! "gemini-live"
    = Some live_session.
Proof.
  pose proof (sweep_removes_exactly_the_expired 1700003600000
                (sessions two_sessions)) as (Hgone & Hkept & _).
  split.
  - apply (Hgone "gemini-old" old_session); [vm_compute; reflexivity|].
    vm_compute. reflexivity.
  - apply (Hkept "gemini-live" live_session); [vm_compute; reflexivity|].
    vm_compute. discriminate.
Defined.

(** ** Instruction composer *)

Lemma truthy_non_empty (field : option string) :
  Js.truthy field = match non_empty field with Some _ => true | None => false end.
Proof. destruct field as [s|]; [|reflexivity]. simpl. by destruct (String.eqb s ""). Qed.

Lemma or_else_non_empty (field : option string) s :
  non_empty field = Some s → Js.or_else field "" = s.
Proof.
  destruct field as [t|]; [|discriminate]. simpl.
  destruct (String.eqb t ""); [discriminate|]. by intros [= ->].
Qed.

(** Reading the descriptions table at a key that [Object.prototype] does
    not define gives the description of a recognized policy, or nothing. *)
Lemma sandboxDescriptions_own policy :
  Js.Object_prototype policy = None →
  Js.get sandboxDescriptions policy = Js.VString <$> recognized_policy policy.
Proof.
  intros Hproto. unfold recognized_policy, sandboxDescriptions. cbn [Js.get].
  rewrite !(String.eqb_sym _ policy).
  repeat (destruct (String.eqb policy _); [reflexivity|]).
  exact Hproto.
Qed.

Lemma recognized_policy_truthy policy description :
  recognized_policy policy = Some description →
  Js.truthy_value (Some (Js.VString description)) = true.
Proof.
  unfold recognized_policy.
  repeat (destruct (String.eqb policy _); [by intros [= <-]|]). discriminate.
Qed.

(** The sandbox step of [buildSystemInstruction] pushes the access block of
    the specification. *)
Lemma sandbox_step (sandbox : option string) (parts : list string) :
  (∀ policy, sandbox = Some policy → Js.Object_prototype policy = None) →
  match sandbox with
  | Some policy =>
      if negb (String.eqb policy "") then
        if Js.truthy_value (Js.get sandboxDescriptions policy)
        then parts ++ [ newline +:+ "Access level: "
                        +:+ Js.to_string (Js.get sandboxDescriptions policy) ]
        else parts
      else parts
  | None => parts
  end = parts ++ access_block (non_empty sandbox).
Proof.
  intros Hproto. destruct sandbox as [policy|]; [|by rewrite app_nil_r].
  unfold non_empty.
  destruct (String.eqb policy "") eqn:Hempty; cbn [negb access_block];
    [by rewrite app_nil_r|].
  rewrite (sandboxDescriptions_own policy (Hproto policy eq_refl)).
  destruct (recognized_policy policy) as [description|] eqn:Hrec;
    cbn [fmap option_fmap option_map].
  - by rewrite (recognized_policy_truthy policy description Hrec).
  - cbn [Js.truthy_value]. by rewrite app_nil_r.
Qed.

Lemma cwd_step (dir : option string) (parts : list string) :
  (if Js.truthy dir
   then parts ++ [ newline +:+ "Working directory: " +:+ Js.or_else dir "" ]
   else parts) = parts ++ cwd_block (non_empty dir).
Proof.
  destruct dir as [s|]; cbn [Js.truthy Js.or_else non_empty];
    [|by rewrite app_nil_r].
  destruct (String.eqb s ""); cbn [negb cwd_block]; [by rewrite app_nil_r|done].
Qed.

Lemma developer_step (dev : option string) (parts : list string) :
  (if Js.truthy dev
   then parts ++ [ newline +:+ "Developer Instructions:" +:+ newline
                   +:+ Js.or_else dev "" ]
   else parts) = parts ++ developer_block (non_empty dev).
Proof.
  destruct dev as [s|]; cbn [Js.truthy Js.or_else non_empty];
    [|by rewrite app_nil_r].
  destruct (String.eqb s ""); cbn [negb developer_block];
    [by rewrite app_nil_r|done].
Qed.

Lemma base_step (base : option string) :
  (if Js.truthy base
   then [] ++ [ Js.or_else base "" ]
   else [] ++ [ DEFAULT_INSTRUCTIONS ]) = [ opening_block (non_empty base) ].
Proof.
  destruct base as [s|]; cbn [Js.truthy Js.or_else non_empty]; [|done].
  by destruct (String.eqb s "").
Qed.

Lemma build_is_compose (config : InstructionConfig) :
  (∀ policy, cfg_sandbox config = Some policy → Js.Object_prototype policy = None) →
  buildSystemInstruction config
  = compose (non_empty (cfg_baseInstructions config))
            (non_empty (cfg_cwd config))
            (non_empty (cfg_sandbox config))
            (non_empty (cfg_developerInstructions config)).
Proof.
  intros Hproto. unfold buildSystemInstruction, compose, Js.join. cbv zeta.
  rewrite developer_step, (sandbox_step _ _ Hproto), cwd_step, base_step.
  by rewrite <- !app_assoc.
Qed.

(** The prototype chain of the descriptions table: a policy named after a
    member of [Object.prototype] is found there and adds a line. *)
Example build_inherited_policy :
  buildSystemInstruction
    {| cfg_cwd := None; cfg_sandbox := Some "constructor";
       cfg_baseInstructions := None; cfg_developerInstructions := None |}
  = DEFAULT_INSTRUCTIONS +:+ newline +:+ newline
    +:+ "Access level: function Object() { [native code] }".
Proof. reflexivity. Qed.

(** C8, as stated, fails: a base instruction supplied as the empty string
    is not used verbatim as the opening block; the default persona is. *)
Lemma compose_supplied_empty_base_differs :
  buildSystemInstruction
    {| cfg_cwd := None; cfg_sandbox := None;
       cfg_baseInstructions := Some ""; cfg_developerInstructions := None |}
  = DEFAULT_INSTRUCTIONS
  ∧ compose (Some "") None None None = ""
  ∧ buildSystemInstruction
      {| cfg_cwd := None; cfg_sandbox := None;
         cfg_baseInstructions := Some ""; cfg_developerInstructions := None |}
    ≠ compose (Some "") None None None.
Proof. repeat split. vm_compute. discriminate. Qed.

(** C8, amended. The composer is a function (total, no error) whose output
    is the blocks of the fields that are supplied and not empty, joined with
    newlines in the order base or default persona, working directory,
    access description, developer instructions; with no optional field it
    is the default persona; an access policy outside the three recognized
    strings contributes nothing.  Policies named after a member of
    [Object.prototype] are left out of the statement. *)
Theorem compose_blocks_of_non_empty_fields (config : InstructionConfig) :
  (∀ policy, cfg_sandbox config = Some policy → Js.Object_prototype policy = None) →
  buildSystemInstruction config
  = compose (non_empty (cfg_baseInstructions config))
            (non_empty (cfg_cwd config))
            (non_empty (cfg_sandbox config))
            (non_empty (cfg_developerInstructions config))
  ∧ (non_empty (cfg_baseInstructions config) = None →
     non_empty (cfg_cwd config) = None →
     non_empty (cfg_sandbox config) = None →
     non_empty (cfg_developerInstructions config) = None →
     buildSystemInstruction config = DEFAULT_INSTRUCTIONS)
  ∧ (∀ policy, cfg_sandbox config = Some policy →
     recognized_policy policy = None →
     buildSystemInstruction config
     = buildSystemInstruction
         {| cfg_cwd := cfg_cwd config;
            cfg_sandbox := None;
            cfg_baseInstructions := cfg_baseInstructions config;
            cfg_developerInstructions := cfg_developerInstructions config |}).
Proof.
  intros Hproto. split; [by apply build_is_compose|]. split.
  - intros Hbase Hcwd Hsandbox Hdev.
    rewrite build_is_compose by exact Hproto.
    by rewrite Hbase, Hcwd, Hsandbox, Hdev.
  - intros policy Hpolicy Hrec.
    rewrite build_is_compose by exact Hproto.
    rewrite build_is_compose by (simpl; discriminate).
    simpl. rewrite Hpolicy. unfold compose. do 3 f_equal.
    simpl. destruct (String.eqb policy ""); [reflexivity|].
    simpl. by rewrite Hrec.
Qed.

Lemma compose_blocks_of_non_empty_fields_witness :
  buildSystemInstruction
    {| cfg_cwd := Some "/srv/app"; cfg_sandbox := Some "sandboxed";
       cfg_baseInstructions := Some ""; cfg_developerInstructions := Some "Use tabs." |}
  = compose None (Some "/srv/app") None (Some "Use tabs.").
Proof.
  apply (compose_blocks_of_non_empty_fields
           {| cfg_cwd := Some "/srv/app"; cfg_sandbox := Some "sandboxed";
              cfg_baseInstructions := Some "";
              cfg_developerInstructions := Some "Use tabs." |}).
  intros policy [= <-]. reflexivity.
Defined.

(** ** Model router and image requests *)

Lemma effect_state outcome σ : (effect outcome σ).2 = σ.
Proof. by destruct outcome. Qed.

Lemma save_images_state w outputPath safePrompt remaining i savedPaths σ :
  (save_images w outputPath safePrompt remaining i savedPaths σ).2 = σ.
Proof.
  revert i savedPaths.
  induction remaining as [|image rest IH]; intros i savedPaths; [reflexivity|].
  cbn [save_images]. unfold mbind, handler_bind.
  destruct (writeFileSync w _ _) as [e|]; [reflexivity|]. apply IH.
Qed.

Lemma generateImage_state w prompt options σ :
  (generateImage w prompt options σ).2
  = {| sessions := sessions σ;
       wire := wire σ ++ [ GenerateImages (image_call prompt options) ] |}.
Proof.
  unfold generateImage, mbind, handler_bind, remote.
  fold (image_call prompt options).
  by destruct (generateImages w (image_call prompt options)).
Qed.

Lemma tool_gemini_image_state w args σ :
  (tool_gemini_image w args σ).2
  = {| sessions := sessions σ;
       wire := wire σ
               ++ [ GenerateImages
                      (image_call (arg_prompt args) (dispatched_options args)) ] |}.
Proof.
  unfold tool_gemini_image. fold (dispatched_options args).
  unfold mbind at 1. unfold handler_bind at 1.
  pose proof (generateImage_state w (arg_prompt args) (dispatched_options args) σ)
    as Hgen.
  destruct (generateImage w (arg_prompt args) (dispatched_options args) σ)
    as [[result|e] σ1]; simpl in Hgen; subst σ1; [|reflexivity].
  unfold mbind at 1. unfold handler_bind at 1.
  match goal with
  | |- context [ (if ?c then ?saving else ?nothing) ?σ1 ] =>
      assert (Hsave : ((if c then saving else nothing) σ1).2 = σ1)
  end.
  { destruct (_ && _)%bool; [|reflexivity].
    unfold mbind, handler_bind.
    destruct (negb _).
    - pose proof (effect_state
        (mkdirSync w (Js.or_else (arg_outputPath args) "")))  as Hmk.
      match goal with |- context [ effect ?o ?s ] =>
        specialize (Hmk s); destruct (effect o s) as [[[]|e] σ2] end;
        simpl in Hmk; subst σ2; [apply save_images_state|reflexivity].
    - apply save_images_state. }
  match goal with
  | |- context [ (if ?c then ?saving else ?nothing) ?σ1 ] =>
      destruct ((if c then saving else nothing) σ1) as [[savedPaths|e] σ2]
  end; simpl in Hsave; subst σ2; reflexivity.
Qed.

Lemma handle_image_state GEMINI_MODEL w args σ :
  (handleCallTool GEMINI_MODEL w "gemini-image" args σ).2
  = {| sessions := cleanupSessions (now_cleanup w) (sessions σ);
       wire := wire σ
               ++ [ GenerateImages
                      (image_call (arg_prompt args) (dispatched_options args)) ] |}.
Proof.
  unfold handleCallTool, try_catch, tool_body.
  change (String.eqb "gemini-image" "gemini") with false.
  change (String.eqb "gemini-image" "gemini-reply") with false.
  change (String.eqb "gemini-image" "gemini-image") with true. cbv iota.
  match goal with |- context [ tool_gemini_image w args ?s ] =>
    pose proof (tool_gemini_image_state w args s) as Himg;
    destruct (tool_gemini_image w args s) as [[result|e] σ1] end;
    simpl in Himg; subst σ1; reflexivity.
Qed.

Lemma issued_app before calls sessions' :
  issued before {| sessions := sessions'; wire := wire before ++ calls |} = calls.
Proof. unfold issued. simpl. by rewrite drop_app_length. Qed.

(** C2. With the override present, the tier of the image request is
    advanced iff the override is true, whatever the prompt: in
    [generateImage] itself, and in the request a [gemini-image] dispatch
    puts on the wire. *)
Theorem explicit_override_decides_tier
    GEMINI_MODEL (w : World) (args : Arguments) (b : bool) (σ : Server) :
  arg_usePro args = Some b →
  (∀ prompt count ratio dir,
     tier_of (img_model (image_call prompt
                {| opt_numberOfImages := count; opt_aspectRatio := ratio;
                   opt_outputDir := dir; opt_usePro := Some b |}))
     = Some (if b then advanced else fast))
  ∧ ∃ call,
      issued σ (handleCallTool GEMINI_MODEL w "gemini-image" args σ).2
      = [ GenerateImages call ]
      ∧ img_prompt call = arg_prompt args
      ∧ tier_of (img_model call) = Some (if b then advanced else fast)
      ∧ (img_model call = IMAGE_MODEL_PRO ↔ b = true).
Proof.
  intros Hb. split.
  - intros prompt count ratio dir. by destruct b.
  - exists (image_call (arg_prompt args) (dispatched_options args)).
    rewrite handle_image_state, issued_app.
    unfold image_call, dispatched_options. simpl. rewrite Hb. simpl.
    destruct b; repeat split; try done.
Qed.

Lemma explicit_override_decides_tier_witness :
  ∃ call,
    issued initial
      (handleCallTool None echo_world "gemini-image"
         (image_args "a cute cat" None (Some true)) initial).2
    = [ GenerateImages call ]
    ∧ img_prompt call = "a cute cat"
    ∧ tier_of (img_model call) = Some advanced
    ∧ (img_model call = IMAGE_MODEL_PRO ↔ true = true).
Proof.
  apply (explicit_override_decides_tier None echo_world
           (image_args "a cute cat" None (Some true)) true initial).
  reflexivity.
Defined.

(** C1. When [usePro] is absent, [generateImage] would choose the advanced
    tier for a prompt that contains a keyword, but the dispatcher hands it
    [usePro || false]: the request of a [gemini-image] dispatch for the
    prompt "Create an infographic of X" names the fast model. *)
Theorem absent_override_dispatch_sends_fast GEMINI_MODEL (w : World) (σ : Server) :
  shouldUsePro "Create an infographic of X" = true
  ∧ img_model (image_call "Create an infographic of X"
                 {| opt_numberOfImages := None; opt_aspectRatio := None;
                    opt_outputDir := None; opt_usePro := None |})
    = IMAGE_MODEL_PRO
  ∧ issued σ
      (handleCallTool GEMINI_MODEL w "gemini-image"
         (image_args "Create an infographic of X" None None) σ).2
    = [ GenerateImages
          {| img_model := IMAGE_MODEL_FAST;
             img_prompt := "Create an infographic of X";
             img_numberOfImages := 1;
             img_aspectRatio := "1:1" |} ].
Proof.
  split; [reflexivity|]. split; [reflexivity|].
  by rewrite handle_image_state, issued_app.
Qed.

(** Whatever the prompt, a dispatch without [usePro] asks for the fast
    model. *)
Lemma absent_override_always_fast GEMINI_MODEL w args σ :
  arg_usePro args = None →
  ∃ call,
    issued σ (handleCallTool GEMINI_MODEL w "gemini-image" args σ).2
    = [ GenerateImages call ]
    ∧ img_model call = IMAGE_MODEL_FAST.
Proof.
  intros Hnone. exists (image_call (arg_prompt args) (dispatched_options args)).
  rewrite handle_image_state, issued_app. split; [reflexivity|].
  unfold image_call, dispatched_options. simpl. by rewrite Hnone.
Qed.

(** C3, as stated, fails: a count of 7 is forwarded as 7. *)
Lemma count_seven_is_forwarded :
  issued initial
    (handleCallTool None echo_world "gemini-image"
       (image_args "a cute cat" (Some 7) None) initial).2
  = [ GenerateImages
        {| img_model := IMAGE_MODEL_FAST;
           img_prompt := "a cute cat";
           img_numberOfImages := 7;
           img_aspectRatio := "1:1" |} ]
  ∧ ¬ (1 ≤ 7 ≤ 4).
Proof. split; [by rewrite handle_image_state, issued_app | lia]. Qed.

(** C3, amended. An absent count, and a count of 0, is forwarded as 1; any
    other count is forwarded as it is.  So the forwarded count lies in
    [1,4] whenever the supplied one does; nothing is clamped. *)
Theorem count_defaults_to_one_else_forwarded
    GEMINI_MODEL (w : World) (args : Arguments) (σ : Server) :
  ∃ call,
    issued σ (handleCallTool GEMINI_MODEL w "gemini-image" args σ).2
    = [ GenerateImages call ]
    ∧ img_numberOfImages call
      = match arg_numberOfImages args with
        | None => 1
        | Some n => if n =? 0 then 1 else n
        end
    ∧ (match arg_numberOfImages args with
       | None => True
       | Some n => 1 ≤ n ≤ 4
       end → 1 ≤ img_numberOfImages call ≤ 4).
Proof.
  exists (image_call (arg_prompt args) (dispatched_options args)).
  rewrite handle_image_state, issued_app. split; [reflexivity|].
  unfold image_call, dispatched_options. simpl.
  destruct (arg_numberOfImages args) as [n|]; simpl.
  - destruct (n =? 0) eqn:Hn; simpl.
    + split; [reflexivity|lia].
    + rewrite Hn. split; [reflexivity|done].
  - split; [reflexivity|lia].
Qed.

Lemma count_defaults_to_one_else_forwarded_witness :
  ∃ call,
    issued initial
      (handleCallTool None echo_world "gemini-image"
         (image_args "a cute cat" (Some 3) None) initial).2
    = [ GenerateImages call ]
    ∧ img_numberOfImages call = 3
    ∧ 1 ≤ img_numberOfImages call ≤ 4.
Proof.
  destruct (count_defaults_to_one_else_forwarded None echo_world
              (image_args "a cute cat" (Some 3) None) initial)
    as (call & Hwire & Hcount & Hrange).
  exists call. split; [exact Hwire|]. split; [exact Hcount|].
  apply Hrange. simpl. lia.
Defined.

(** ** Chat tools: what one dispatch does *)

Section Chat.

Variable GEMINI_MODEL : option string.

Lemma callGemini_run w prompt h systemInstruction σ :
  callGemini GEMINI_MODEL w prompt h systemInstruction σ
  = let call := chat_request GEMINI_MODEL prompt h systemInstruction in
    let σ' := {| sessions := sessions σ; wire := wire σ ++ [ ChatSend call ] |} in
    match sendMessage w call with
    | inl e => (Abrupt e, σ')
    | inr reply =>
        (Normal (Js.or_else reply "", h ++ [ user_turn prompt; model_turn reply ]),
         σ')
    end.
Proof.
  unfold callGemini, mbind, handler_bind, remote. cbv zeta.
  by destruct (sendMessage w _).
Qed.

(** The initial turn: one request; on failure the error envelope and no
    new session, on success the session under the generated id. *)
Lemma handle_gemini w args σ :
  handleCallTool GEMINI_MODEL w "gemini" args σ
  = let swept := cleanupSessions (now_cleanup w) (sessions σ) in
    let call :=
      chat_request GEMINI_MODEL (arg_prompt args) []
        (Some (buildSystemInstruction (initial_config args))) in
    let id := generateConversationId (now_id w) (random36 w) in
    match sendMessage w call with
    | inl e =>
        (api_error e,
         {| sessions := swept; wire := wire σ ++ [ ChatSend call ] |})
    | inr reply =>
        (reply_result reply id,
         {| sessions := <[ id := new_session w args reply ]> swept;
            wire := wire σ ++ [ ChatSend call ] |})
    end.
Proof.
  unfold handleCallTool, try_catch, tool_body.
  change (String.eqb "gemini" "gemini") with true. cbv iota.
  unfold tool_gemini. fold (initial_config args).
  unfold mbind at 1. unfold handler_bind at 1.
  rewrite callGemini_run. cbv zeta.
  by destruct (sendMessage w _).
Qed.

(** The continuation turn: without the session, the error envelope and
    nothing else; with it, one request built from the stored history and
    working directory, and on success the two fields updated. *)
Lemma handle_gemini_reply w args σ :
  handleCallTool GEMINI_MODEL w "gemini-reply" args σ
  = let swept := cleanupSessions (now_cleanup w) (sessions σ) in
    let id := arg_conversationId args in
    match swept !! id with
    | None => (not_found id, {| sessions := swept; wire := wire σ |})
    | Some session =>
        let call :=
          chat_request GEMINI_MODEL (arg_prompt args) (history session)
            (Some (buildSystemInstruction (stored_config session))) in
        match sendMessage w call with
        | inl e =>
            (api_error e,
             {| sessions := swept; wire := wire σ ++ [ ChatSend call ] |})
        | inr reply =>
            (reply_result reply id,
             {| sessions :=
                  <[ id := touch session
                             (history session
                              ++ [ user_turn (arg_prompt args); model_turn reply ])
                             (now_lastUsed w) ]> swept;
                wire := wire σ ++ [ ChatSend call ] |})
        end
    end.
Proof.
  unfold handleCallTool, try_catch, tool_body.
  change (String.eqb "gemini-reply" "gemini") with false.
  change (String.eqb "gemini-reply" "gemini-reply") with true. cbv iota.
  unfold tool_gemini_reply. cbv zeta.
  unfold mbind at 1. unfold handler_bind at 1. unfold get_sessions at 1.
  cbn [sessions].
  destruct (cleanupSessions (now_cleanup w) (sessions σ) !! arg_conversationId args)
    as [session|]; [|reflexivity].
  fold (stored_config session).
  unfold mbind at 1. unfold handler_bind at 1.
  rewrite callGemini_run. cbv zeta.
  by destruct (sendMessage w _).
Qed.

(** The branch on its own, on a store that lacks the id. *)
Lemma tool_gemini_reply_absent w args σ :
  sessions σ !! arg_conversationId args = None →
  tool_gemini_reply GEMINI_MODEL w args σ
  = (Normal (not_found (arg_conversationId args)), σ).
Proof.
  intros Habsent. unfold tool_gemini_reply. cbv zeta.
  unfold mbind at 1. unfold handler_bind at 1. unfold get_sessions at 1.
  by rewrite Habsent.
Qed.

Lemma handle_other w name args σ :
  name ≠ "gemini" → name ≠ "gemini-reply" →
  sessions (handleCallTool GEMINI_MODEL w name args σ).2
  = cleanupSessions (now_cleanup w) (sessions σ).
Proof.
  intros Hgemini Hreply.
  destruct (String.eqb name "gemini-image") eqn:Himage.
  - apply String.eqb_eq in Himage as ->. by rewrite handle_image_state.
  - unfold handleCallTool, try_catch, tool_body.
    apply String.eqb_neq in Hgemini as ->.
    apply String.eqb_neq in Hreply as ->.
    by rewrite Himage.
Qed.

End Chat.

(** ** Histories: complete user/model pairs *)

Lemma complete_pairs_first prompt reply :
  complete_pairs [ user_turn prompt; model_turn reply ].
Proof.
  split.
  - exists 1%nat. reflexivity.
  - intros [|[|i]] turn Hturn; simpl in Hturn; try discriminate;
      injection Hturn as <-; reflexivity.
Qed.

Lemma complete_pairs_app h prompt reply :
  complete_pairs h →
  complete_pairs (h ++ [ user_turn prompt; model_turn reply ]).
Proof.
  intros [[k Hk] Halt]. split.
  - exists (S k). rewrite length_app. simpl. lia.
  - intros i turn Hturn.
    destruct (decide (i < length h)%nat) as [Hlt|Hge].
    + rewrite lookup_app_l in Hturn by exact Hlt. by apply Halt.
    + rewrite lookup_app_r in Hturn by lia.
      assert (Heven : Nat.even (length h) = true).
      { apply Nat.even_spec. by exists k. }
      destruct (i - length h)%nat as [|[|j]] eqn:Hoff; simpl in Hturn;
        try discriminate; injection Hturn as <-.
      * replace i with (length h) by lia. unfold expected_role.
        by rewrite Heven.
      * replace i with (S (length h)) by lia. unfold expected_role.
        by rewrite Nat.even_succ, <- Nat.negb_even, Heven.
Qed.

Lemma store_ok_empty : store_ok ∅.
Proof. intros id session Hid. by rewrite lookup_empty in Hid. Qed.

Lemma store_ok_sweep now store : store_ok store → store_ok (cleanupSessions now store).
Proof.
  intros Hok id session Hid. apply (Hok id), (cleanupSessions_subset now), Hid.
Qed.

Lemma store_ok_insert store id session :
  store_ok store → complete_pairs (history session) →
  store_ok (<[ id := session ]> store).
Proof.
  intros Hok Hsession id' session' Hid'.
  destruct (decide (id = id')) as [->|Hne].
  - rewrite lookup_insert_eq in Hid'. by injection Hid' as <-.
  - rewrite lookup_insert_ne in Hid' by exact Hne. by apply (Hok id').
Qed.

Section Invariant.

Variable GEMINI_MODEL : option string.

(** Every dispatch keeps the histories of the store in complete pairs. *)
Lemma handle_store_ok w name args σ :
  store_ok (sessions σ) →
  store_ok (sessions (handleCallTool GEMINI_MODEL w name args σ).2).
Proof.
  intros Hok.
  pose proof (store_ok_sweep (now_cleanup w) _ Hok) as Hswept.
  destruct (decide (name = "gemini")) as [->|Hgemini].
  { rewrite handle_gemini. cbv zeta.
    destruct (sendMessage w _) as [e|reply]; [exact Hswept|].
    apply store_ok_insert; [exact Hswept|]. apply complete_pairs_first. }
  destruct (decide (name = "gemini-reply")) as [->|Hreply].
  { rewrite handle_gemini_reply. cbv zeta.
    destruct (cleanupSessions _ _ !! _) as [session|] eqn:Hsession;
      [|exact Hswept].
    destruct (sendMessage w _) as [e|reply]; [exact Hswept|].
    apply store_ok_insert; [exact Hswept|].
    apply complete_pairs_app, (Hswept _ _ Hsession). }
  by rewrite handle_other.
Qed.

(** Where a session of the store after a dispatch comes from: it was
    there before and is untouched, or it is the session the initial turn
    has just stored, or it is the session of the reply, one pair longer. *)
Lemma handle_session_origin w name args σ id session' :
  sessions (handleCallTool GEMINI_MODEL w name args σ).2 !! id = Some session' →
  sessions σ !! id = Some session'
  ∨ (name = "gemini" ∧ ∃ reply, session' = new_session w args reply)
  ∨ (name = "gemini-reply" ∧ id = arg_conversationId args ∧
     ∃ session reply,
       sessions σ !! id = Some session ∧
       session' = touch session
                    (history session
                     ++ [ user_turn (arg_prompt args); model_turn reply ])
                    (now_lastUsed w)).
Proof.
  destruct (decide (name = "gemini")) as [->|Hgemini].
  { rewrite handle_gemini. cbv zeta.
    destruct (sendMessage w _) as [e|reply]; cbn [snd sessions].
    - intros Hid. left. by apply cleanupSessions_subset in Hid.
    - rewrite lookup_insert. case_decide.
      + intros [= <-]. right. left. eauto.
      + intros Hid. left. by apply cleanupSessions_subset in Hid. }
  destruct (decide (name = "gemini-reply")) as [->|Hreply].
  { rewrite handle_gemini_reply. cbv zeta.
    destruct (cleanupSessions _ _ !! arg_conversationId args)
      as [session|] eqn:Hsession; cbn [snd sessions].
    - destruct (sendMessage w _) as [e|reply]; cbn [snd sessions].
      + intros Hid. left. by apply cleanupSessions_subset in Hid.
      + rewrite lookup_insert. case_decide.
        * intros [= <-]. right. right. subst id.
          apply cleanupSessions_subset in Hsession. eauto 6.
        * intros Hid. left. by apply cleanupSessions_subset in Hid.
    - intros Hid. left. by apply cleanupSessions_subset in Hid. }
  rewrite handle_other by done.
  intros Hid. left. by apply cleanupSessions_subset in Hid.
Qed.

End Invariant.

(** ** The claims about the chat tools *)

(** C6. A continuation turn whose conversation id is not in the store
    (never issued, or swept) answers with the error-flagged "not found"
    envelope, issues no request, and the reply branch leaves the store it
    looked the id up in as it is: the store after the dispatch is the store
    the sweep at the start of the dispatch left, and no session is
    created. *)
Theorem reply_to_absent_id_is_error
    GEMINI_MODEL (w : World) (args : Arguments) (σ : Server) :
  cleanupSessions (now_cleanup w) (sessions σ) !! arg_conversationId args = None →
  let swept :=
    {| sessions := cleanupSessions (now_cleanup w) (sessions σ);
       wire := wire σ |} in
  let out := handleCallTool GEMINI_MODEL w "gemini-reply" args σ in
  tool_gemini_reply GEMINI_MODEL w args swept
  = (Normal (not_found (arg_conversationId args)), swept)
  ∧ out = (not_found (arg_conversationId args), swept)
  ∧ isError out.1 = true
  ∧ content out.1
    = [ TextBlock ("Error: Conversation " +:+ arg_conversationId args +:+
          " not found. It may have expired or never existed.") ]
  ∧ (∀ id session,
       sessions out.2 !! id = Some session → sessions σ !! id = Some session).
Proof.
  intros Habsent swept out.
  assert (Hout : out = (not_found (arg_conversationId args), swept)).
  { subst out swept. rewrite handle_gemini_reply. cbv zeta. by rewrite Habsent. }
  split; [by apply tool_gemini_reply_absent|].
  split; [exact Hout|]. rewrite Hout. split; [reflexivity|].
  split; [reflexivity|].
  intros id session Hid. by apply cleanupSessions_subset in Hid.
Qed.

Lemma reply_to_absent_id_is_error_witness :
  let out :=
    handleCallTool None echo_world "gemini-reply"
      (reply_args "gemini-old" "again") two_sessions in
  isError out.1 = true
  ∧ (∀ id session,
       sessions out.2 !! id = Some session →
       sessions two_sessions !! id = Some session).
Proof.
  pose proof (reply_to_absent_id_is_error None echo_world
                (reply_args "gemini-old" "again") two_sessions) as Hclaim.
  assert (Habsent :
    cleanupSessions (now_cleanup echo_world) (sessions two_sessions)
      !! arg_conversationId (reply_args "gemini-old" "again") = None).
  { vm_compute. reflexivity. }
  destruct (Hclaim Habsent) as (_ & _ & Herror & _ & Hkept).
  split; [exact Herror|exact Hkept].
Defined.



(** C9. A successful continuation turn on a stored session changes its
    [history] and [lastUsed] and nothing else: [createdAt] and [cwd] are
    those of the session before, every other session is as the sweep left
    it, and the request is composed from the stored [cwd] alone.  The
    stored [cwd] is the [cwd] argument of the initial turn that created the
    session, and no later dispatch other than an initial turn changes the
    [cwd] or [createdAt] of a session that stays in the store. *)
Theorem reply_keeps_createdAt_and_cwd
    GEMINI_MODEL (w : World) (args : Arguments) (σ : Server)
    (session : ConversationSession) (reply : option string) :
  let swept := cleanupSessions (now_cleanup w) (sessions σ) in
  let call :=
    chat_request GEMINI_MODEL (arg_prompt args) (history session)
      (Some (buildSystemInstruction
               {| cfg_cwd := cwd session; cfg_sandbox := None;
                  cfg_baseInstructions := None;
                  cfg_developerInstructions := None |})) in
  let out := handleCallTool GEMINI_MODEL w "gemini-reply" args σ in
  swept !! arg_conversationId args = Some session →
  sendMessage w call = inr reply →
  (∃ session',
     sessions out.2 !! arg_conversationId args = Some session'
     ∧ createdAt session' = createdAt session
     ∧ cwd session' = cwd session
     ∧ history session'
       = history session ++ [ user_turn (arg_prompt args); model_turn reply ]
     ∧ lastUsed session' = now_lastUsed w)
  ∧ (∀ id, id ≠ arg_conversationId args → sessions out.2 !! id = swept !! id)
  ∧ issued σ out.2 = [ ChatSend call ]
  ∧ isError out.1 = false
  ∧ (∀ w0 args0 σ0 reply0,
       sendMessage w0
         (chat_request GEMINI_MODEL (arg_prompt args0) []
            (Some (buildSystemInstruction (initial_config args0)))) = inr reply0 →
       ∃ created,
         sessions (handleCallTool GEMINI_MODEL w0 "gemini" args0 σ0).2
           !! generateConversationId (now_id w0) (random36 w0) = Some created
         ∧ cwd created = arg_cwd args0
         ∧ createdAt created = now_createdAt w0)
  ∧ (∀ w0 name0 args0 σ0 id before after,
       name0 ≠ "gemini" →
       sessions σ0 !! id = Some before →
       sessions (handleCallTool GEMINI_MODEL w0 name0 args0 σ0).2 !! id
       = Some after →
       cwd after = cwd before ∧ createdAt after = createdAt before).
Proof.
  intros swept call out Hsession Hreply.
  assert (Hout : out
    = (reply_result reply (arg_conversationId args),
       {| sessions :=
            <[ arg_conversationId args :=
                 touch session
                   (history session
                    ++ [ user_turn (arg_prompt args); model_turn reply ])
                   (now_lastUsed w) ]> swept;
          wire := wire σ ++ [ ChatSend call ] |})).
  { subst out swept call. rewrite handle_gemini_reply. cbv zeta.
    rewrite Hsession. unfold stored_config. by rewrite Hreply. }
  rewrite Hout. cbn [fst snd sessions].
  split; [|split; [|split; [|split; [|split]]]].
  - eexists. rewrite lookup_insert_eq. split; [reflexivity|]. by repeat split.
  - intros id Hne. by rewrite lookup_insert_ne.
  - apply issued_app.
  - reflexivity.
  - intros w0 args0 σ0 reply0 Hreply0. rewrite handle_gemini. cbv zeta.
    rewrite Hreply0. cbn [snd sessions]. rewrite lookup_insert_eq.
    eexists. split; [reflexivity|]. by split.
  - intros w0 name0 args0 σ0 id before after Hname Hbefore Hafter.
    destruct (handle_session_origin _ _ _ _ _ _ _ Hafter)
      as [Hsame|[[Hgemini _]|(_ & _ & s0 & r0 & Hs0 & ->)]].
    + rewrite Hbefore in Hsame. by injection Hsame as <-.
    + contradiction.
    + rewrite Hbefore in Hs0. by injection Hs0 as <-.
Qed.

Lemma reply_keeps_createdAt_and_cwd_witness :
  let out :=
    handleCallTool None echo_world "gemini-reply"
      (reply_args "gemini-live" "again") two_sessions in
  ∃ session',
    sessions out.2 !! "gemini-live" = Some session'
    ∧ createdAt session' = createdAt live_session
    ∧ cwd session' = Some "/srv/app"
    ∧ history session'
      = history live_session
        ++ [ user_turn "again"; model_turn (Some "echo: again") ]
    ∧ lastUsed session' = 1700003600003.
Proof.
  pose proof (reply_keeps_createdAt_and_cwd None echo_world
                (reply_args "gemini-live" "again") two_sessions
                live_session (Some "echo: again")) as Hclaim.
  cbv zeta in Hclaim.
  assert (Hstored :
    cleanupSessions (now_cleanup echo_world) (sessions two_sessions)
      !! arg_conversationId (reply_args "gemini-live" "again")
    = Some live_session).
  { vm_compute. reflexivity. }
  destruct (Hclaim Hstored eq_refl) as [Hsession _]. exact Hsession.
Defined.

(** C10. The [model] argument of the initial turn changes nothing: two
    dispatches that differ only in it give the same result envelope, the
    same store and the same request, and that request names the model
    configured through the environment ([GEMINI_MODEL], or the default
    when it is unset or empty). *)
Theorem model_argument_is_ignored
    GEMINI_MODEL (w : World) (args : Arguments) (model1 model2 : option string)
    (σ : Server) :
  handleCallTool GEMINI_MODEL w "gemini" (with_model model1 args) σ
  = handleCallTool GEMINI_MODEL w "gemini" (with_model model2 args) σ
  ∧ ∃ call,
      issued σ (handleCallTool GEMINI_MODEL w "gemini" (with_model model1 args) σ).2
      = [ ChatSend call ]
      ∧ chat_model call = MODEL GEMINI_MODEL
      ∧ chat_model call
        = match GEMINI_MODEL with
          | Some configured =>
              if String.eqb configured "" then "gemini-3-pro-preview" else configured
          | None => "gemini-3-pro-preview"
          end.
Proof.
  split.
  - rewrite !handle_gemini. reflexivity.
  - rewrite handle_gemini. cbv zeta.
    eexists. split.
    + destruct (sendMessage w _); cbn [snd]; apply issued_app.
    + split; reflexivity.
Qed.

(** ** Further properties of the session store *)

(** Two sweeps in a row are one sweep at the later of the two times; in
    particular a sweep is idempotent. *)
Theorem sweep_twice_is_sweep_at_later_time
    (now1 now2 : Z) (store : gmap string ConversationSession) :
  cleanupSessions now2 (cleanupSessions now1 store)
  = cleanupSessions (Z.max now1 now2) store
  ∧ cleanupSessions now1 (cleanupSessions now1 store) = cleanupSessions now1 store.
Proof.
  assert (Hgeneral : ∀ a b,
    cleanupSessions b (cleanupSessions a store) = cleanupSessions (Z.max a b) store).
  { intros a b. apply map_eq. intros id. rewrite !cleanupSessions_lookup.
    destruct (store !! id) as [session|]; [|reflexivity].
    destruct (lastUsed session <? a - 3600000) eqn:Ha;
      destruct (lastUsed session <? Z.max a b - 3600000) eqn:Hmax;
      try destruct (lastUsed session <? b - 3600000) eqn:Hb;
      try reflexivity;
      repeat match goal with
             | H : (_ <? _) = true |- _ => apply Z.ltb_lt in H
             | H : (_ <? _) = false |- _ => apply Z.ltb_ge in H
             end; lia. }
  split; [apply Hgeneral|]. rewrite Hgeneral. by rewrite Z.max_id.
Qed.

Section Origin.

Variable GEMINI_MODEL : option string.

(** The sessions of the store after a dispatch, against the swept store. *)
Lemma handle_session_after_sweep w name args σ id session' :
  sessions (handleCallTool GEMINI_MODEL w name args σ).2 !! id = Some session' →
  cleanupSessions (now_cleanup w) (sessions σ) !! id = Some session'
  ∨ lastUsed session' = now_lastUsed w.
Proof.
  destruct (decide (name = "gemini")) as [->|Hgemini].
  { rewrite handle_gemini. cbv zeta.
    destruct (sendMessage w _) as [e|reply]; cbn [snd sessions]; [by left|].
    rewrite lookup_insert. case_decide; [|by left].
    intros [= <-]. by right. }
  destruct (decide (name = "gemini-reply")) as [->|Hreply].
  { rewrite handle_gemini_reply. cbv zeta.
    destruct (cleanupSessions _ _ !! arg_conversationId args)
      as [session|] eqn:Hsession; cbn [snd sessions]; [|by left].
    destruct (sendMessage w _) as [e|reply]; cbn [snd sessions]; [by left|].
    rewrite lookup_insert. case_decide; [|by left].
    intros [= <-]. by right. }
  rewrite handle_other by done. by left.
Qed.

End Origin.

(** After any dispatch, whatever the tool and its outcome, every session
    in the store was used within the hour before the sweep time of that
    dispatch, or is the session the dispatch has just written. *)
Theorem no_stale_session_after_dispatch
    GEMINI_MODEL (w : World) (name : string) (args : Arguments) (σ : Server)
    (id : string) (session : ConversationSession) :
  sessions (handleCallTool GEMINI_MODEL w name args σ).2 !! id = Some session →
  now_cleanup w - 60 * 60 * 1000 ≤ lastUsed session
  ∨ lastUsed session = now_lastUsed w.
Proof.
  intros Hid.
  destruct (handle_session_after_sweep _ _ _ _ _ _ _ Hid) as [Hswept|Hnew];
    [left|by right].
  rewrite cleanupSessions_lookup in Hswept.
  destruct (sessions σ !! id) as [stored|]; [|discriminate].
  change (60 * 60 * 1000) with 3600000.
  destruct (lastUsed stored <? now_cleanup w - 3600000) eqn:Hcmp; [discriminate|].
  injection Hswept as <-. by apply Z.ltb_ge.
Qed.

Lemma no_stale_session_after_dispatch_witness :
  1700003600000 - 60 * 60 * 1000 ≤ lastUsed live_session
  ∨ lastUsed live_session = 1700003600003.
Proof.
  apply (no_stale_session_after_dispatch None echo_world "gemini-image"
           (image_args "a cute cat" None None) two_sessions "gemini-live").
  vm_compute. reflexivity.
Defined.

(** A tool name that the catalogue does not list is answered with the
    error-flagged "Unknown tool" envelope; no request is issued and the
    store is the swept store. *)
Theorem unlisted_tool_is_rejected
    GEMINI_MODEL (w : World) (name : string) (args : Arguments) (σ : Server) :
  name ∉ tool_names →
  handleCallTool GEMINI_MODEL w name args σ
  = (unknown_tool name,
     {| sessions := cleanupSessions (now_cleanup w) (sessions σ);
        wire := wire σ |}).
Proof.
  intros Hname. unfold handleCallTool, try_catch, tool_body.
  assert (Hne : ∀ listed, listed ∈ tool_names → String.eqb name listed = false).
  { intros listed Hlisted. apply String.eqb_neq. by intros ->. }
  rewrite !Hne by (unfold tool_names; set_solver). reflexivity.
Qed.

Lemma unlisted_tool_is_rejected_witness :
  handleCallTool None echo_world "gemini-video" (prompt_only "a cat") two_sessions
  = (unknown_tool "gemini-video",
     {| sessions := cleanupSessions 1700003600000 (sessions two_sessions);
        wire := [] |}).
Proof.
  apply (unlisted_tool_is_rejected None echo_world "gemini-video"
           (prompt_only "a cat") two_sessions).
  unfold tool_names. intros Hin.
  repeat (apply elem_of_cons in Hin as [Hin|Hin]; [discriminate|]).
  by apply not_elem_of_nil in Hin.
Defined.

(** Every dispatch keeps the requests already issued and adds at most one:
    exactly one for an initial turn and for an image call, one for a reply
    to a stored session, none for a reply to an absent id and none for an
    unlisted tool. *)
Theorem at_most_one_request_per_dispatch
    GEMINI_MODEL (w : World) (name : string) (args : Arguments) (σ : Server) :
  let σ' := (handleCallTool GEMINI_MODEL w name args σ).2 in
  wire σ' = wire σ ++ issued σ σ'
  ∧ (length (issued σ σ') ≤ 1)%nat
  ∧ (name = "gemini" ∨ name = "gemini-image" → length (issued σ σ') = 1%nat)
  ∧ (name = "gemini-reply" →
     length (issued σ σ')
     = match cleanupSessions (now_cleanup w) (sessions σ)
               !! arg_conversationId args with
       | Some _ => 1%nat
       | None => 0%nat
       end)
  ∧ (name ∉ tool_names → issued σ σ' = []).
Proof.
  intros σ'.
  assert (Hlisted : ∀ listed, listed ∈ tool_names → name ∉ tool_names → name ≠ listed).
  { intros listed Hin Hnot ->. contradiction. }
  assert (Hshape : ∃ calls,
    wire σ' = wire σ ++ calls
    ∧ (length calls ≤ 1)%nat
    ∧ (name = "gemini" ∨ name = "gemini-image" → length calls = 1%nat)
    ∧ (name = "gemini-reply" →
       length calls
       = match cleanupSessions (now_cleanup w) (sessions σ)
                 !! arg_conversationId args with
         | Some _ => 1%nat
         | None => 0%nat
         end)
    ∧ (name ∉ tool_names → calls = [])).
  { subst σ'. destruct (decide (name = "gemini")) as [->|Hgemini].
    { rewrite handle_gemini. cbv zeta.
      eexists [ _ ]. split; [by destruct (sendMessage w _)|].
      split; [simpl; lia|]. split; [done|]. split; [discriminate|].
      intros Hnot. exfalso. apply Hnot. unfold tool_names. set_solver. }
    destruct (decide (name = "gemini-reply")) as [->|Hreply].
    { rewrite handle_gemini_reply. cbv zeta.
      destruct (cleanupSessions _ _ !! arg_conversationId args) as [session|].
      - eexists [ _ ]. split; [by destruct (sendMessage w _)|].
        split; [simpl; lia|]. split; [by intros [|]|]. split; [done|].
        intros Hnot. exfalso. apply Hnot. unfold tool_names. set_solver.
      - exists []. split; [cbn [snd wire]; by rewrite app_nil_r|].
        split; [simpl; lia|]. split; [by intros [|]|]. done. }
    destruct (decide (name = "gemini-image")) as [->|Himage].
    { rewrite handle_image_state. eexists [ _ ]. split; [reflexivity|].
      split; [simpl; lia|]. split; [done|]. split; [discriminate|].
      intros Hnot. exfalso. apply Hnot. unfold tool_names. set_solver. }
    exists []. split.
    - unfold handleCallTool, try_catch, tool_body.
      apply String.eqb_neq in Hgemini as ->. apply String.eqb_neq in Hreply as ->.
      apply String.eqb_neq in Himage as ->. cbn [snd wire]. by rewrite app_nil_r.
    - split; [simpl; lia|]. split; [by intros [|]|]. done. }
  destruct Hshape as (calls & Hwire & Hlen & Hone & Hreply & Hnone).
  assert (Hissued : issued σ σ' = calls).
  { unfold issued. rewrite Hwire. by rewrite drop_app_length. }
  rewrite Hissued. done.
Qed.

Lemma at_most_one_request_per_dispatch_witness :
  length
    (issued two_sessions
       (handleCallTool None echo_world "gemini-reply"
          (reply_args "gemini-old" "again") two_sessions).2)
  = 0%nat.
Proof.
  pose proof (at_most_one_request_per_dispatch None echo_world "gemini-reply"
                (reply_args "gemini-old" "again") two_sessions)
    as (_ & _ & _ & Hreply & _).
  rewrite (Hreply eq_refl). vm_compute. reflexivity.
Defined.

(** ** Further properties of the chat tools *)

Lemma concat_head_non_empty sep first rest :
  first ≠ "" → String.concat sep (first :: rest) ≠ "".
Proof.
  intros Hfirst. destruct first as [|c first]; [done|].
  destruct rest; simpl; discriminate.
Qed.

Lemma opening_block_non_empty base : opening_block (non_empty base) ≠ "".
Proof.
  destruct base as [s|]; simpl; [|discriminate].
  destruct (String.eqb s "") eqn:Hs; simpl; [discriminate|].
  by apply String.eqb_neq.
Qed.

(** Whatever the configuration, the composed instruction opens with the
    base instructions (when not empty) or the default persona. *)
Lemma build_opens_with_base config :
  ∃ rest,
    buildSystemInstruction config
    = String.concat newline
        (opening_block (non_empty (cfg_baseInstructions config)) :: rest).
Proof.
  unfold buildSystemInstruction, Js.join. cbv zeta.
  rewrite developer_step.
  assert (Hsandbox : ∀ parts : list string, ∃ extra,
    match cfg_sandbox config with
    | Some sandbox =>
        if negb (String.eqb sandbox "") then
          if Js.truthy_value (Js.get sandboxDescriptions sandbox)
          then parts ++ [ newline +:+ "Access level: "
                          +:+ Js.to_string (Js.get sandboxDescriptions sandbox) ]
          else parts
        else parts
    | None => parts
    end = parts ++ extra).
  { intros parts. destruct (cfg_sandbox config) as [sandbox|].
    - destruct (negb _); [|exists []; by rewrite app_nil_r].
      destruct (Js.truthy_value _); [by eexists|exists []; by rewrite app_nil_r].
    - exists []. by rewrite app_nil_r. }
  match goal with
  | |- context [ match cfg_sandbox config with Some _ => _ | None => ?parts end ] =>
      destruct (Hsandbox parts) as [extra ->]
  end.
  rewrite cwd_step, base_step. eexists. rewrite <- !app_assoc. reflexivity.
Qed.

Lemma build_non_empty config : buildSystemInstruction config ≠ "".
Proof.
  destruct (build_opens_with_base config) as [rest ->].
  apply concat_head_non_empty, opening_block_non_empty.
Qed.

(** Every chat request a dispatch issues names the configured model and
    carries a system instruction that is not empty: the [undefined] arm of
    [systemInstruction ? { systemInstruction } : undefined] is never
    taken by the dispatcher. *)
Theorem chat_requests_carry_an_instruction
    GEMINI_MODEL (w : World) (name : string) (args : Arguments) (σ : Server)
    (call : ChatCall) :
  ChatSend call ∈ issued σ (handleCallTool GEMINI_MODEL w name args σ).2 →
  chat_model call = MODEL GEMINI_MODEL
  ∧ chat_message call = arg_prompt args
  ∧ ∃ instruction,
      chat_systemInstruction call = Some instruction ∧ instruction ≠ "".
Proof.
  assert (Hrequest : ∀ prompt h config,
    let request :=
      chat_request GEMINI_MODEL prompt h (Some (buildSystemInstruction config)) in
    chat_model request = MODEL GEMINI_MODEL
    ∧ chat_message request = prompt
    ∧ ∃ instruction,
        chat_systemInstruction request = Some instruction ∧ instruction ≠ "").
  { intros prompt h config. cbv zeta. split; [reflexivity|]. split; [reflexivity|].
    exists (buildSystemInstruction config). split; [|apply build_non_empty].
    unfold chat_request. cbn [chat_systemInstruction Js.truthy].
    pose proof (build_non_empty config) as Hne.
    apply String.eqb_neq in Hne. by rewrite Hne. }
  destruct (decide (name = "gemini")) as [->|Hgemini].
  { rewrite handle_gemini. cbv zeta.
    destruct (sendMessage w _); cbn [snd]; rewrite issued_app;
      intros Hin; apply list_elem_of_singleton in Hin; injection Hin as ->;
      apply Hrequest. }
  destruct (decide (name = "gemini-reply")) as [->|Hreply].
  { rewrite handle_gemini_reply. cbv zeta.
    destruct (cleanupSessions _ _ !! arg_conversationId args) as [session|].
    - destruct (sendMessage w _); cbn [snd]; rewrite issued_app;
        intros Hin; apply list_elem_of_singleton in Hin; injection Hin as ->;
        apply Hrequest.
    - cbn [snd]. unfold issued. cbn [wire]. rewrite drop_all.
      intros Hin. by apply not_elem_of_nil in Hin. }
  destruct (decide (name = "gemini-image")) as [->|Himage].
  { rewrite handle_image_state, issued_app. intros Hin.
    apply list_elem_of_singleton in Hin. discriminate. }
  unfold handleCallTool, try_catch, tool_body.
  apply String.eqb_neq in Hgemini as ->. apply String.eqb_neq in Hreply as ->.
  apply String.eqb_neq in Himage as ->. cbn [snd]. unfold issued. cbn [wire].
  rewrite drop_all. intros Hin. by apply not_elem_of_nil in Hin.
Qed.

Lemma chat_requests_carry_an_instruction_witness :
  chat_model
    (chat_request None "hello" []
       (Some (buildSystemInstruction (initial_config (prompt_only "hello")))))
  = "gemini-3-pro-preview"
  ∧ chat_message
      (chat_request None "hello" []
         (Some (buildSystemInstruction (initial_config (prompt_only "hello")))))
    = "hello"
  ∧ ∃ instruction,
      chat_systemInstruction
        (chat_request None "hello" []
           (Some (buildSystemInstruction (initial_config (prompt_only "hello")))))
      = Some instruction ∧ instruction ≠ "".
Proof.
  apply (chat_requests_carry_an_instruction None echo_world "gemini"
           (prompt_only "hello") initial).
  vm_compute. apply list_elem_of_here.
Defined.

(** When the remote call of a reply fails, the request has been issued,
    the answer is the error envelope with the failure message, and the
    session is exactly as it was: neither [history] nor [lastUsed] moves. *)
Theorem failed_reply_leaves_session_untouched
    GEMINI_MODEL (w : World) (args : Arguments) (σ : Server)
    (session : ConversationSession) (e : Thrown) :
  let swept := cleanupSessions (now_cleanup w) (sessions σ) in
  let call :=
    chat_request GEMINI_MODEL (arg_prompt args) (history session)
      (Some (buildSystemInstruction (stored_config session))) in
  let out := handleCallTool GEMINI_MODEL w "gemini-reply" args σ in
  swept !! arg_conversationId args = Some session →
  sendMessage w call = inl e →
  out.1 = api_error e
  ∧ sessions out.2 = swept
  ∧ sessions out.2 !! arg_conversationId args = Some session
  ∧ issued σ out.2 = [ ChatSend call ].
Proof.
  intros swept call out Hsession Hfail. subst out swept call.
  rewrite handle_gemini_reply. cbv zeta. rewrite Hsession, Hfail.
  cbn [fst snd sessions]. split; [reflexivity|]. split; [reflexivity|].
  split; [exact Hsession|]. apply issued_app.
Qed.

Lemma failed_reply_leaves_session_untouched_witness :
  let out :=
    handleCallTool None failing_world "gemini-reply"
      (reply_args "gemini-live" "again") two_sessions in
  out.1 = api_error (ErrorObject "quota exceeded")
  ∧ sessions out.2
    = cleanupSessions (now_cleanup failing_world) (sessions two_sessions)
  ∧ sessions out.2 !! "gemini-live" = Some live_session.
Proof.
  pose proof (failed_reply_leaves_session_untouched None failing_world
                (reply_args "gemini-live" "again") two_sessions live_session
                (ErrorObject "quota exceeded")) as Hclaim.
  cbv zeta in Hclaim.
  assert (Hstored :
    cleanupSessions (now_cleanup failing_world) (sessions two_sessions)
      !! arg_conversationId (reply_args "gemini-live" "again")
    = Some live_session).
  { vm_compute. reflexivity. }
  destruct (Hclaim Hstored eq_refl) as (Hout & Hstore & Hkept & _).
  split; [exact Hout|]. split; [exact Hstore|exact Hkept].
Defined.

(** A reply is sent with the default persona, followed by the stored
    working directory when there is one: base instructions, access policy
    and developer instructions given to the initial turn are not
    reapplied.  The history sent is the stored one. *)
Theorem reply_instruction_is_default_persona_and_cwd
    GEMINI_MODEL (w : World) (args : Arguments) (σ : Server)
    (session : ConversationSession) :
  cleanupSessions (now_cleanup w) (sessions σ) !! arg_conversationId args
  = Some session →
  ∃ call,
    issued σ (handleCallTool GEMINI_MODEL w "gemini-reply" args σ).2
    = [ ChatSend call ]
    ∧ chat_history call = history session
    ∧ chat_systemInstruction call
      = Some match non_empty (cwd session) with
             | Some dir =>
                 DEFAULT_INSTRUCTIONS +:+ newline +:+ newline
                 +:+ "Working directory: " +:+ dir
             | None => DEFAULT_INSTRUCTIONS
             end.
Proof.
  intros Hsession. rewrite handle_gemini_reply. cbv zeta. rewrite Hsession.
  eexists. split; [destruct (sendMessage w _); cbn [snd]; apply issued_app|].
  split; [reflexivity|].
  unfold chat_request. cbn [chat_systemInstruction Js.truthy].
  pose proof (build_non_empty (stored_config session)) as Hne.
  apply String.eqb_neq in Hne. rewrite Hne. cbn [negb]. f_equal.
  rewrite build_is_compose by (simpl; discriminate).
  cbn [stored_config cfg_cwd cfg_sandbox cfg_baseInstructions
       cfg_developerInstructions non_empty].
  by destruct (non_empty (cwd session)).
Qed.

Lemma reply_instruction_is_default_persona_and_cwd_witness :
  ∃ call,
    issued two_sessions
      (handleCallTool None echo_world "gemini-reply"
         (reply_args "gemini-live" "again") two_sessions).2
    = [ ChatSend call ]
    ∧ chat_history call = history live_session
    ∧ chat_systemInstruction call
      = Some (DEFAULT_INSTRUCTIONS +:+ newline +:+ newline
              +:+ "Working directory: /srv/app").
Proof.
  apply (reply_instruction_is_default_persona_and_cwd None echo_world
           (reply_args "gemini-live" "again") two_sessions live_session).
  vm_compute. reflexivity.
Defined.

(** A conversation end to end.  A successful initial turn returns, as
    metadata, the id under which the session is stored.  A later reply to
    that id is answered "not found" when its sweep runs more than an hour
    after the session was last used; otherwise it sends the first pair of
    turns as history, composes its instruction from the [cwd] of the
    initial turn, and on success stores the four turns under the same id
    with the original [createdAt]. *)
Theorem conversation_continues_within_the_hour
    GEMINI_MODEL (w1 w2 : World) (args1 args2 : Arguments) (σ : Server)
    (reply1 : option string) :
  let call1 :=
    chat_request GEMINI_MODEL (arg_prompt args1) []
      (Some (buildSystemInstruction (initial_config args1))) in
  let id := generateConversationId (now_id w1) (random36 w1) in
  let first := handleCallTool GEMINI_MODEL w1 "gemini" args1 σ in
  let second := handleCallTool GEMINI_MODEL w2 "gemini-reply" args2 first.2 in
  let call2 :=
    chat_request GEMINI_MODEL (arg_prompt args2)
      [ user_turn (arg_prompt args1); model_turn reply1 ]
      (Some (buildSystemInstruction
               {| cfg_cwd := arg_cwd args1; cfg_sandbox := None;
                  cfg_baseInstructions := None;
                  cfg_developerInstructions := None |})) in
  sendMessage w1 call1 = inr reply1 →
  arg_conversationId args2 = id →
  meta_conversationId first.1 = Some id
  ∧ (now_lastUsed w1 < now_cleanup w2 - 60 * 60 * 1000 →
     second.1 = not_found id ∧ issued first.2 second.2 = []
     ∧ sessions second.2 !! id = None)
  ∧ (now_cleanup w2 - 60 * 60 * 1000 ≤ now_lastUsed w1 →
     issued first.2 second.2 = [ ChatSend call2 ]
     ∧ ∀ reply2,
         sendMessage w2 call2 = inr reply2 →
         second.1 = reply_result reply2 id
         ∧ sessions second.2 !! id
           = Some {| history :=
                       [ user_turn (arg_prompt args1); model_turn reply1;
                         user_turn (arg_prompt args2); model_turn reply2 ];
                     createdAt := now_createdAt w1;
                     lastUsed := now_lastUsed w2;
                     cwd := arg_cwd args1 |}).
Proof.
  intros call1 id first second call2 Hreply1 Hid.
  assert (Hfirst : first
    = (reply_result reply1 id,
       {| sessions :=
            <[ id := new_session w1 args1 reply1 ]>
              (cleanupSessions (now_cleanup w1) (sessions σ));
          wire := wire σ ++ [ ChatSend call1 ] |})).
  { subst first call1 id. rewrite handle_gemini. cbv zeta. by rewrite Hreply1. }
  change (60 * 60 * 1000) with 3600000.
  split; [by rewrite Hfirst|]. subst second.
  rewrite handle_gemini_reply. cbv zeta. rewrite Hid.
  rewrite cleanupSessions_lookup. rewrite Hfirst. cbn [snd sessions wire].
  rewrite lookup_insert_eq. cbn [new_session lastUsed]. split.
  - intros Hold. rewrite (proj2 (Z.ltb_lt _ _) Hold). cbn [fst snd sessions].
    split; [reflexivity|]. split.
    + unfold issued. cbn [wire]. by rewrite drop_all.
    + rewrite cleanupSessions_lookup, lookup_insert_eq.
      cbn [new_session lastUsed].
      by rewrite (proj2 (Z.ltb_lt _ _) Hold).
  - intros Hfresh. rewrite (proj2 (Z.ltb_ge _ _) Hfresh).
    change (chat_request GEMINI_MODEL (arg_prompt args2)
              (history (new_session w1 args1 reply1))
              (Some (buildSystemInstruction
                       (stored_config (new_session w1 args1 reply1)))))
      with call2.
    split.
    + destruct (sendMessage w2 call2); unfold issued; cbn [snd wire];
        by rewrite drop_app_length.
    + intros reply2 Hreply2. rewrite Hreply2. cbn [fst snd sessions].
      split; [reflexivity|]. by rewrite lookup_insert_eq.
Qed.

Lemma conversation_continues_within_the_hour_witness :
  let first := handleCallTool None echo_world "gemini" (prompt_only "hello") initial in
  meta_conversationId first.1 = Some "gemini-1700003600001-4fzyo82"
  ∧ (handleCallTool None late_world "gemini-reply"
       (reply_args "gemini-1700003600001-4fzyo82" "again") first.2).1
    = not_found "gemini-1700003600001-4fzyo82"
  ∧ length
      (issued first.2
         (handleCallTool None echo_world "gemini-reply"
            (reply_args "gemini-1700003600001-4fzyo82" "again") first.2).2)
    = 1%nat.
Proof.
  pose proof (conversation_continues_within_the_hour None echo_world late_world
                (prompt_only "hello")
                (reply_args "gemini-1700003600001-4fzyo82" "again") initial
                (Some "echo: hello") eq_refl eq_refl) as (Hmeta & Hlate & _).
  pose proof (conversation_continues_within_the_hour None echo_world echo_world
                (prompt_only "hello")
                (reply_args "gemini-1700003600001-4fzyo82" "again") initial
                (Some "echo: hello") eq_refl eq_refl) as (_ & _ & Hsoon).
  split; [exact Hmeta|]. split.
  - apply Hlate. vm_compute. reflexivity.
  - destruct Hsoon as [Hissued _]; [vm_compute; discriminate|].
    by rewrite Hissued.
Defined.

(** ** Further properties of the image tool *)

Lemma collect_images_filter generated acc :
  collect_images generated acc
  = acc ++ map pushed_image (List.filter has_bytes generated).
Proof.
  revert acc. induction generated as [|g generated IH]; intros acc.
  - simpl. by rewrite app_nil_r.
  - cbn [collect_images List.filter]. unfold has_bytes at 1.
    destruct (Js.truthy (imageBytes g)); rewrite IH; [|reflexivity].
    by rewrite <- app_assoc.
Qed.

(** The [gemini-image] branch, step by step: the request, then the
    images of the response, then the saving step, then the envelope. *)
Lemma tool_gemini_image_run w args σ :
  tool_gemini_image w args σ
  = let call := image_call (arg_prompt args) (dispatched_options args) in
    let σ' := {| sessions := sessions σ;
                 wire := wire σ ++ [ GenerateImages call ] |} in
    match generateImages w call with
    | inl e => (Abrupt e, σ')
    | inr response =>
        match save_generated w args (returned_images response) σ' with
        | (Normal savedPaths, σ'') =>
            (Normal (image_envelope (arg_prompt args) (img_model call)
                       (returned_images response) savedPaths), σ'')
        | (Abrupt e, σ'') => (Abrupt e, σ'')
        end
    end.
Proof.
  unfold tool_gemini_image. fold (dispatched_options args).
  unfold mbind at 1. unfold handler_bind at 1.
  unfold generateImage. unfold mbind at 1. unfold handler_bind at 1.
  unfold remote. cbv zeta.
  destruct (generateImages w _) as [e|response]; [reflexivity|].
  unfold mbind at 1. unfold handler_bind at 1.
  unfold mret at 1. unfold handler_ret at 1. cbv beta iota.
  cbn [images result_model result_prompt].
  fold (returned_images response).
  unfold save_generated, image_envelope. cbv zeta.
  match goal with
  | |- context [ (if ?c then ?saving else ?nothing) ?σ1 ] =>
      destruct ((if c then saving else nothing) σ1) as [[paths|e] σ'']
  end; reflexivity.
Qed.

(** *** The keyword router *)

Lemma prefix_spec sub s :
  String.prefix sub s = true ↔ ∃ rest, s = sub +:+ rest.
Proof.
  revert s. induction sub as [|c sub IH]; intros s.
  - destruct s; simpl; (split; [intros _; eexists; reflexivity|done]).
  - destruct s as [|d s]; simpl.
    { split; [discriminate|]. intros [rest Hrest]. discriminate. }
    destruct (ascii_dec c d) as [->|Hne].
    + rewrite IH. split; intros [rest Hrest]; exists rest.
      * by rewrite Hrest.
      * by injection Hrest.
    + split; [discriminate|]. intros [rest Hrest]. injection Hrest as Hcd _.
      congruence.
Qed.

Lemma includes_spec s sub :
  Js.includes s sub = true ↔ ∃ before after, s = before +:+ sub +:+ after.
Proof.
  induction s as [|c s IH]; cbn [Js.includes].
  - rewrite orb_false_r, prefix_spec. split.
    + intros [rest Hrest]. by exists "", rest.
    + intros (before & after & Hs). destruct before; [by exists after|done].
  - rewrite orb_true_iff, prefix_spec, IH. split.
    + intros [[rest Hrest]|(before & after & ->)].
      * by exists "", rest.
      * by exists (String c before), after.
    + intros (before & after & Hs). destruct before as [|d before].
      * left. by exists after.
      * right. injection Hs as -> ->. by exists before, after.
Qed.

Lemma append_cons c (a b : string) : String c a +:+ b = String c (a +:+ b).
Proof. reflexivity. Qed.

Lemma toLowerCase_app a b :
  Js.toLowerCase (a +:+ b) = Js.toLowerCase a +:+ Js.toLowerCase b.
Proof.
  induction a as [|c a IH]; [done|].
  rewrite append_cons. cbn [Js.toLowerCase]. by rewrite append_cons, IH.
Qed.

Lemma lower_ascii_idemp c : Js.lower_ascii (Js.lower_ascii c) = Js.lower_ascii c.
Proof.
  destruct c as [[] [] [] [] [] [] [] []]; vm_compute; reflexivity.
Qed.

Lemma toLowerCase_idemp s : Js.toLowerCase (Js.toLowerCase s) = Js.toLowerCase s.
Proof.
  induction s as [|c s IH]; simpl; [done|]. by rewrite lower_ascii_idemp, IH.
Qed.

Lemma string_app_assoc (a b c : string) : (a +:+ b) +:+ c = a +:+ b +:+ c.
Proof. induction a as [|x a IH]; [done|]. by rewrite !append_cons, IH. Qed.

(** [shouldUsePro] answers true exactly when the lower-cased prompt
    contains one of the keywords as a substring, anywhere; so the answer
    does not depend on the case of the prompt, and a prompt that matches
    still matches when text is put before and after it. *)
Theorem shouldUsePro_is_substring_match (prompt : string) :
  (shouldUsePro prompt = true ↔
   ∃ keyword before after,
     keyword ∈ PRO_KEYWORDS ∧
     Js.toLowerCase prompt = before +:+ keyword +:+ after)
  ∧ shouldUsePro (Js.toLowerCase prompt) = shouldUsePro prompt
  ∧ (shouldUsePro prompt = true →
     ∀ before after, shouldUsePro (before +:+ prompt +:+ after) = true).
Proof.
  assert (Hspec : ∀ p,
    shouldUsePro p = true ↔
    ∃ keyword before after,
      keyword ∈ PRO_KEYWORDS ∧ Js.toLowerCase p = before +:+ keyword +:+ after).
  { intros p. unfold shouldUsePro, Js.some. cbv zeta. rewrite existsb_exists.
    split.
    - intros (keyword & Hin & Hinc). apply includes_spec in Hinc
        as (before & after & Hp). exists keyword, before, after.
      split; [by apply list_elem_of_In|exact Hp].
    - intros (keyword & before & after & Hin & Hp). exists keyword.
      split; [by apply list_elem_of_In|]. apply includes_spec. eauto. }
  split; [apply Hspec|]. split.
  - unfold shouldUsePro. cbv zeta. by rewrite toLowerCase_idemp.
  - intros Hmatch before after.
    apply Hspec in Hmatch as (keyword & b & a & Hin & Hp).
    apply Hspec. exists keyword, (Js.toLowerCase before +:+ b),
      (a +:+ Js.toLowerCase after).
    split; [exact Hin|].
    rewrite !toLowerCase_app, Hp. by rewrite !string_app_assoc.
Qed.

Lemma shouldUsePro_is_substring_match_witness :
  shouldUsePro ("Please draw: " +:+ "my LOGO" +:+ ", thanks") = true.
Proof.
  pose proof (shouldUsePro_is_substring_match "my LOGO") as (_ & _ & Hembed).
  apply Hembed. reflexivity.
Defined.

(** Inside [generateImage], with [usePro] absent from the options, the
    keywords decide: the request names the advanced model iff the
    lower-cased prompt contains a keyword, and the fast model otherwise. *)
Theorem generateImage_detects_keywords
    (w : World) (prompt : string) (options : ImageOptions) (σ : Server) :
  opt_usePro options = None →
  ∃ call,
    issued σ (generateImage w prompt options σ).2 = [ GenerateImages call ]
    ∧ img_prompt call = prompt
    ∧ (tier_of (img_model call) = Some advanced ↔
       ∃ keyword before after,
         keyword ∈ PRO_KEYWORDS ∧
         Js.toLowerCase prompt = before +:+ keyword +:+ after)
    ∧ (tier_of (img_model call) = Some fast ↔ shouldUsePro prompt = false).
Proof.
  intros Habsent. exists (image_call prompt options).
  rewrite generateImage_state, issued_app. split; [reflexivity|].
  split; [reflexivity|].
  unfold image_call. cbv zeta. rewrite Habsent. cbn [Js.nullish img_model].
  assert (Hspec : shouldUsePro prompt = true ↔
    ∃ keyword before after,
      keyword ∈ PRO_KEYWORDS ∧
      Js.toLowerCase prompt = before +:+ keyword +:+ after).
  { unfold shouldUsePro, Js.some. cbv zeta. rewrite existsb_exists. split.
    - intros (keyword & Hin & Hinc). apply includes_spec in Hinc
        as (before & after & Hp). exists keyword, before, after.
      split; [by apply list_elem_of_In|exact Hp].
    - intros (keyword & before & after & Hin & Hp). exists keyword.
      split; [by apply list_elem_of_In|]. apply includes_spec. eauto. }
  rewrite <- Hspec.
  destruct (shouldUsePro prompt); split; split; try done.
Qed.

Lemma generateImage_detects_keywords_witness :
  ∃ call,
    issued initial
      (generateImage echo_world "Create an infographic of X"
         {| opt_numberOfImages := None; opt_aspectRatio := None;
            opt_outputDir := None; opt_usePro := None |} initial).2
    = [ GenerateImages call ]
    ∧ tier_of (img_model call) = Some advanced.
Proof.
  destruct (generateImage_detects_keywords echo_world "Create an infographic of X"
              {| opt_numberOfImages := None; opt_aspectRatio := None;
                 opt_outputDir := None; opt_usePro := None |} initial eq_refl)
    as (call & Hissued & Hprompt & Hadvanced & _).
  exists call. split; [exact Hissued|]. apply Hadvanced.
  exists "infographic", "create an ", " of x".
  split; [|reflexivity].
  unfold PRO_KEYWORDS. do 3 apply list_elem_of_further. apply list_elem_of_here.
Defined.

(** *** Saving the images *)

(** When the writes for the first [k] images succeed, the loop reaches the
    image at offset [k] with the [k] paths appended. *)
Lemma save_images_prefix w outputPath safePrompt written rest i savedPaths σ :
  (∀ j image, written !! j = Some image →
     writeFileSync w (image_file w outputPath safePrompt (i + j)) (base64 image)
     = None) →
  save_images w outputPath safePrompt (written ++ rest) i savedPaths σ
  = save_images w outputPath safePrompt rest (i + length written)
      (savedPaths
       ++ map (image_file w outputPath safePrompt) (seq i (length written))) σ.
Proof.
  revert i savedPaths.
  induction written as [|image written IH]; intros i savedPaths Hwrites.
  - cbn [app length seq map]. by rewrite Nat.add_0_r, app_nil_r.
  - cbn [app save_images]. unfold mbind, handler_bind.
    pose proof (Hwrites 0%nat image eq_refl) as Hfirst.
    rewrite Nat.add_0_r in Hfirst. unfold image_file in Hfirst.
    rewrite Hfirst. cbn [effect]. unfold mret, handler_ret.
    rewrite IH.
    + cbn [length seq map]. rewrite <- app_assoc. cbn [app].
      by replace (S i + length written)%nat with (i + S (length written))%nat by lia.
    + intros j image' Hj.
      replace (S i + j)%nat with (i + S j)%nat by lia. by apply Hwrites.
Qed.

Lemma save_generated_state w args generated σ :
  (save_generated w args generated σ).2 = σ.
Proof.
  unfold save_generated. destruct (_ && _)%bool; [|reflexivity].
  cbv zeta. unfold mbind, handler_bind.
  destruct (negb _).
  - destruct (mkdirSync w _) as [e|]; cbn [effect]; [reflexivity|].
    unfold mret, handler_ret. apply save_images_state.
  - unfold mret, handler_ret. apply save_images_state.
Qed.

Lemma handle_image_run GEMINI_MODEL w args σ :
  handleCallTool GEMINI_MODEL w "gemini-image" args σ
  = let call := image_call (arg_prompt args) (dispatched_options args) in
    let σ' := {| sessions := cleanupSessions (now_cleanup w) (sessions σ);
                 wire := wire σ ++ [ GenerateImages call ] |} in
    match generateImages w call with
    | inl e => (api_error e, σ')
    | inr response =>
        match (save_generated w args (returned_images response) σ').1 with
        | Normal savedPaths =>
            (image_envelope (arg_prompt args) (img_model call)
               (returned_images response) savedPaths, σ')
        | Abrupt e => (api_error e, σ')
        end
    end.
Proof.
  unfold handleCallTool, try_catch, tool_body.
  change (String.eqb "gemini-image" "gemini") with false.
  change (String.eqb "gemini-image" "gemini-reply") with false.
  change (String.eqb "gemini-image" "gemini-image") with true. cbv iota.
  rewrite tool_gemini_image_run. cbv zeta. cbn [sessions wire].
  destruct (generateImages w _) as [e|response]; [reflexivity|].
  match goal with
  | |- context [ save_generated w args ?imgs ?s ] =>
      pose proof (save_generated_state w args imgs s) as Hstate;
      destruct (save_generated w args imgs s) as [[paths|e] σ'']
  end; cbn [snd fst] in *; by subst σ''.
Qed.

(** The file name stem is safe: [prompt.slice(0, 50)] with every character
    outside [a-zA-Z0-9] replaced by an underscore has only letters, digits
    and underscores (no path separator, no dot), is as long as the prompt
    up to 50 characters, and is the prompt itself when the prompt is short
    and alphanumeric. *)
Theorem file_name_stem_is_sanitized (prompt : string) :
  let safePrompt := Js.replace_non_alnum (Js.slice0 50 prompt) in
  Forall (λ c, file_name_char c = true) (chars safePrompt)
  ∧ String.length safePrompt = Nat.min 50 (String.length prompt)
  ∧ (Forall (λ c, Js.alnum c = true) (chars prompt) →
     (String.length prompt ≤ 50)%nat →
     safePrompt = prompt).
Proof.
  assert (Hchars : ∀ s,
    Forall (λ c, file_name_char c = true) (chars (Js.replace_non_alnum s))).
  { induction s as [|c s IH]; cbn [Js.replace_non_alnum chars]; constructor;
      [|exact IH].
    unfold file_name_char. destruct (Js.alnum c) eqn:Hc; [by rewrite Hc|].
    reflexivity. }
  assert (Hlen : ∀ s, String.length (Js.replace_non_alnum s) = String.length s).
  { induction s as [|c s IH]; cbn [Js.replace_non_alnum String.length];
      [done|by rewrite IH]. }
  assert (Hslice : ∀ n s,
    String.length (String.substring 0 n s) = Nat.min n (String.length s)).
  { induction n as [|n IH]; intros s.
    - by destruct s.
    - destruct s as [|c s]; [done|]. cbn [String.substring String.length].
      by rewrite IH. }
  assert (Hshort : ∀ n s, (String.length s ≤ n)%nat → String.substring 0 n s = s).
  { induction n as [|n IH]; intros s Hs.
    - destruct s; [done|]. cbn [String.length] in Hs. lia.
    - destruct s as [|c s]; [done|]. cbn [String.substring String.length] in *.
      rewrite IH; [done|lia]. }
  assert (Hid : ∀ s,
    Forall (λ c, Js.alnum c = true) (chars s) → Js.replace_non_alnum s = s).
  { induction s as [|c s IH]; [done|]. cbn [chars Js.replace_non_alnum].
    intros Hall. apply Forall_cons in Hall as [Hc Hs]. by rewrite Hc, IH. }
  intros safePrompt. subst safePrompt. unfold Js.slice0.
  split; [apply Hchars|]. split; [by rewrite Hlen, Hslice|].
  intros Hall Hle. rewrite Hshort by exact Hle. by apply Hid.
Qed.

Lemma file_name_stem_is_sanitized_witness :
  Js.replace_non_alnum (Js.slice0 50 "cat42") = "cat42".
Proof.
  pose proof (file_name_stem_is_sanitized "cat42") as (_ & _ & Hsame).
  apply Hsame.
  - repeat constructor.
  - vm_compute. lia.
Defined.

(** Only generated images that carry bytes are returned, in order, all
    tagged [image/png]; when no output path is given, or no image carries
    bytes, nothing is saved and the envelope is the summary followed by one
    image block per returned image. *)
Theorem image_envelope_lists_images_with_bytes
    GEMINI_MODEL (w : World) (args : Arguments) (σ : Server)
    (response : option (list GeneratedImage)) :
  let call := image_call (arg_prompt args) (dispatched_options args) in
  let generated := default [] response in
  let returned := map pushed_image (List.filter has_bytes generated) in
  generateImages w call = inr response →
  non_empty (arg_outputPath args) = None ∨ List.filter has_bytes generated = [] →
  (handleCallTool GEMINI_MODEL w "gemini-image" args σ).1
  = {| content :=
         TextBlock ("Generated " +:+ pretty (length returned)
                    +:+ " image(s) using " +:+ img_model call
                    +:+ " for prompt: " +:+ dquote +:+ arg_prompt args
                    +:+ dquote)
         :: map image_block returned;
       isError := false;
       meta_conversationId := None |}
  ∧ Forall (λ image, mimeType image = "image/png" ∧ base64 image ≠ "") returned
  ∧ (length returned ≤ length generated)%nat.
Proof.
  intros call generated returned Hresponse Hnothing.
  assert (Hreturned : returned_images response = returned).
  { subst returned generated. destruct response as [generated|]; [|reflexivity].
    cbn [returned_images default]. by rewrite collect_images_filter. }
  split; [|split].
  - rewrite handle_image_run. cbv zeta. fold call. rewrite Hresponse, Hreturned.
    assert (Hsave : ∀ σ', save_generated w args returned σ' = (Normal [], σ')).
    { intros σ'. unfold save_generated. rewrite truthy_non_empty.
      destruct Hnothing as [->|Hempty]; [reflexivity|].
      subst returned. rewrite Hempty. cbn [map length Nat.ltb Nat.leb].
      by rewrite andb_false_r. }
    rewrite Hsave. cbn [fst]. unfold image_envelope. cbn [length Nat.ltb Nat.leb].
    reflexivity.
  - subst returned. apply Forall_forall. intros image Himage.
    apply list_elem_of_fmap in Himage as (g & -> & Hg).
    apply list_elem_of_In, filter_In in Hg as [_ Hbytes].
    split; [reflexivity|]. unfold has_bytes in Hbytes. cbn [pushed_image base64].
    destruct (imageBytes g) as [bytes|]; [|discriminate]. cbn in *.
    destruct (String.eqb bytes "") eqn:Hb; [discriminate|].
    by apply String.eqb_neq.
  - subst returned. rewrite length_map. apply filter_length_le.
Qed.

Lemma image_envelope_lists_images_with_bytes_witness :
  length
    (content
       (handleCallTool None full_disk_world "gemini-image"
          (image_args "a cute cat" None None) initial).1)
  = 3%nat.
Proof.
  pose proof (image_envelope_lists_images_with_bytes None full_disk_world
                (image_args "a cute cat" None None) initial
                (Some [ {| imageBytes := Some "aGVsbG8=" |};
                        {| imageBytes := None |};
                        {| imageBytes := Some "d29ybGQ=" |} ])
                eq_refl (or_introl eq_refl)) as [Henvelope _].
  rewrite Henvelope. reflexivity.
Defined.

(** With an output path, a directory that exists or can be created, and
    writes that all succeed, every returned image is written once, the
    image at position [j] (from 0) under the sanitized stem followed by
    [_], [j + 1] and [.png], and the envelope lists these paths in order. *)
Theorem saved_images_are_numbered_from_one
    GEMINI_MODEL (w : World) (args : Arguments) (σ : Server)
    (response : option (list GeneratedImage)) (dir : string) :
  let call := image_call (arg_prompt args) (dispatched_options args) in
  let returned := returned_images response in
  let safePrompt := Js.replace_non_alnum (Js.slice0 50 (arg_prompt args)) in
  generateImages w call = inr response →
  non_empty (arg_outputPath args) = Some dir →
  returned ≠ [] →
  existsSync w dir = true ∨ mkdirSync w dir = None →
  (∀ j image, returned !! j = Some image →
     writeFileSync w (image_file w dir safePrompt j) (base64 image) = None) →
  (handleCallTool GEMINI_MODEL w "gemini-image" args σ).1
  = image_envelope (arg_prompt args) (img_model call) returned
      (map (image_file w dir safePrompt) (seq 0 (length returned)))
  ∧ length (map (image_file w dir safePrompt) (seq 0 (length returned)))
    = length returned.
Proof.
  intros call returned safePrompt Hresponse Hdir Hsome Hready Hwrites.
  split; [|by rewrite length_map, length_seq].
  rewrite handle_image_run. cbv zeta. fold call. rewrite Hresponse.
  fold returned.
  assert (Hsave : ∀ σ',
    save_generated w args returned σ'
    = (Normal (map (image_file w dir safePrompt) (seq 0 (length returned))), σ')).
  { intros σ'. unfold save_generated. rewrite truthy_non_empty, Hdir.
    rewrite (or_else_non_empty _ _ Hdir).
    destruct returned as [|image rest] eqn:Hreturned; [done|].
    rewrite <- Hreturned in *. cbv zeta.
    replace (Nat.ltb 0 (length returned)) with true
      by (rewrite Hreturned; reflexivity).
    cbn [andb]. unfold mbind at 1. unfold handler_bind at 1.
    assert (Hmkdir :
      (if negb (existsSync w dir) then effect (mkdirSync w dir) else mret ()) σ'
      = (Normal (), σ')).
    { destruct Hready as [->| ->]; [reflexivity|].
      by destruct (negb (existsSync w dir)). }
    rewrite Hmkdir. fold safePrompt.
    rewrite <- (app_nil_r returned) at 1.
    rewrite save_images_prefix by exact Hwrites.
    reflexivity. }
  by rewrite Hsave.
Qed.

Lemma saved_images_are_numbered_from_one_witness :
  (handleCallTool None echo_world "gemini-image"
     {| arg_prompt := "a cute cat!";
        arg_cwd := None; arg_sandbox := None; arg_base_instructions := None;
        arg_developer_instructions := None; arg_model := None;
        arg_conversationId := "never-used"; arg_numberOfImages := None;
        arg_aspectRatio := None; arg_usePro := None;
        arg_outputPath := Some "out" |} initial).1
  = image_envelope "a cute cat!" IMAGE_MODEL_FAST
      [ {| base64 := "aGVsbG8="; mimeType := "image/png" |} ]
      [ "out/a_cute_cat__1.png" ].
Proof.
  apply (saved_images_are_numbered_from_one None echo_world
           {| arg_prompt := "a cute cat!";
              arg_cwd := None; arg_sandbox := None; arg_base_instructions := None;
              arg_developer_instructions := None; arg_model := None;
              arg_conversationId := "never-used"; arg_numberOfImages := None;
              arg_aspectRatio := None; arg_usePro := None;
              arg_outputPath := Some "out" |} initial
           (Some [ {| imageBytes := Some "aGVsbG8=" |} ]) "out").
  - reflexivity.
  - reflexivity.
  - discriminate.
  - by left.
  - reflexivity.
Defined.

(** When saving fails, the caller gets no image: if the directory cannot
    be created, or the write of some image throws after the earlier
    writes succeeded, the answer is the error envelope labelled
    "Gemini API error" with the message of the file-system failure,
    although the images were generated and the request is on the wire. *)
Theorem failed_save_discards_generated_images
    GEMINI_MODEL (w : World) (args : Arguments) (σ : Server)
    (response : option (list GeneratedImage)) (dir : string) (e : Thrown) :
  let call := image_call (arg_prompt args) (dispatched_options args) in
  let returned := returned_images response in
  let safePrompt := Js.replace_non_alnum (Js.slice0 50 (arg_prompt args)) in
  let failed :=
    (api_error e,
     {| sessions := cleanupSessions (now_cleanup w) (sessions σ);
        wire := wire σ ++ [ GenerateImages call ] |}) in
  generateImages w call = inr response →
  non_empty (arg_outputPath args) = Some dir →
  (returned ≠ [] → existsSync w dir = false → mkdirSync w dir = Some e →
   handleCallTool GEMINI_MODEL w "gemini-image" args σ = failed)
  ∧ (∀ written image rest,
       returned = written ++ image :: rest →
       existsSync w dir = true ∨ mkdirSync w dir = None →
       (∀ j earlier, written !! j = Some earlier →
          writeFileSync w (image_file w dir safePrompt j) (base64 earlier) = None) →
       writeFileSync w (image_file w dir safePrompt (length written))
         (base64 image) = Some e →
       handleCallTool GEMINI_MODEL w "gemini-image" args σ = failed).
Proof.
  intros call returned safePrompt failed Hresponse Hdir.
  assert (Hhandle :
    (∀ σ', (save_generated w args returned σ').1 = Abrupt e) →
    handleCallTool GEMINI_MODEL w "gemini-image" args σ = failed).
  { intros Hsave. rewrite handle_image_run. cbv zeta. fold call.
    rewrite Hresponse. fold returned. by rewrite Hsave. }
  assert (Hopen : ∀ σ',
    returned ≠ [] →
    save_generated w args returned σ'
    = ((if negb (existsSync w dir) then effect (mkdirSync w dir) else mret ())
       ≫= λ _, save_images w dir safePrompt returned 0 []) σ').
  { intros σ' Hsome. unfold save_generated.
    rewrite truthy_non_empty, Hdir, (or_else_non_empty _ _ Hdir).
    destruct returned as [|first others]; [done|]. reflexivity. }
  split.
  - intros Hsome Hmissing Hmkdir. apply Hhandle. intros σ'.
    rewrite Hopen by exact Hsome. unfold mbind, handler_bind.
    by rewrite Hmissing, Hmkdir.
  - intros written image rest Hreturned Hready Hwrites Hfail.
    apply Hhandle. intros σ'.
    rewrite Hopen by (rewrite Hreturned; by destruct written).
    unfold mbind at 1. unfold handler_bind at 1.
    assert (Hmkdir :
      (if negb (existsSync w dir) then effect (mkdirSync w dir) else mret ()) σ'
      = (Normal (), σ')).
    { destruct Hready as [->| ->]; [reflexivity|].
      by destruct (negb (existsSync w dir)). }
    rewrite Hmkdir, Hreturned, save_images_prefix by exact Hwrites.
    cbn [save_images]. unfold mbind, handler_bind.
    unfold image_file in Hfail. cbn [Nat.add]. by rewrite Hfail.
Qed.

Lemma failed_save_discards_generated_images_witness :
  handleCallTool None full_disk_world "gemini-image"
    {| arg_prompt := "a cute cat!";
       arg_cwd := None; arg_sandbox := None; arg_base_instructions := None;
       arg_developer_instructions := None; arg_model := None;
       arg_conversationId := "never-used"; arg_numberOfImages := None;
       arg_aspectRatio := None; arg_usePro := None;
       arg_outputPath := Some "out" |} initial
  = (api_error (ErrorObject "ENOSPC: no space left on device"),
     {| sessions := cleanupSessions 1700003600000 ∅;
        wire := [ GenerateImages
                    {| img_model := IMAGE_MODEL_FAST;
                       img_prompt := "a cute cat!";
                       img_numberOfImages := 1;
                       img_aspectRatio := "1:1" |} ] |}).
Proof.
  pose proof (failed_save_discards_generated_images None full_disk_world
                {| arg_prompt := "a cute cat!";
                   arg_cwd := None; arg_sandbox := None;
                   arg_base_instructions := None;
                   arg_developer_instructions := None; arg_model := None;
                   arg_conversationId := "never-used";
                   arg_numberOfImages := None;
                   arg_aspectRatio := None; arg_usePro := None;
                   arg_outputPath := Some "out" |} initial
                (Some [ {| imageBytes := Some "aGVsbG8=" |};
                        {| imageBytes := None |};
                        {| imageBytes := Some "d29ybGQ=" |} ])
                "out" (ErrorObject "ENOSPC: no space left on device")
                eq_refl eq_refl) as [_ Hwrite].
  apply (Hwrite [] {| base64 := "aGVsbG8="; mimeType := "image/png" |}
           [ {| base64 := "d29ybGQ="; mimeType := "image/png" |} ]).
  - reflexivity.
  - by right.
  - intros j earlier Hj. discriminate.
  - reflexivity.
Defined.

(** The aspect ratio is forwarded as given: absent or empty it becomes
    [1:1], and any other string reaches the remote call unchanged,
    whether or not it is one of the five ratios of the schema.  The prompt
    is forwarded verbatim. *)
Theorem aspect_ratio_defaults_else_forwarded
    GEMINI_MODEL (w : World) (args : Arguments) (σ : Server) :
  ∃ call,
    issued σ (handleCallTool GEMINI_MODEL w "gemini-image" args σ).2
    = [ GenerateImages call ]
    ∧ img_prompt call = arg_prompt args
    ∧ img_aspectRatio call
      = match arg_aspectRatio args with
        | Some ratio => if String.eqb ratio "" then "1:1" else ratio
        | None => "1:1"
        end.
Proof.
  exists (image_call (arg_prompt args) (dispatched_options args)).
  rewrite handle_image_state, issued_app. split; [reflexivity|].
  split; [reflexivity|].
  unfold image_call, dispatched_options. cbv zeta.
  cbn [img_aspectRatio opt_aspectRatio].
  destruct (arg_aspectRatio args) as [ratio|]; [|reflexivity].
  cbn [Js.or_else]. destruct (String.eqb ratio "") eqn:Hratio; [reflexivity|].
  by rewrite Hratio.
Qed.

(** ** The result envelope *)

(** Whatever the tool, the arguments and the behaviour of the world, the
    handler returns an envelope that starts with a text block; the blocks
    after it are image blocks and occur only in the error-free answer of
    the image tool; an error-flagged envelope is a single text block
    without metadata; and a conversation id comes only with an error-free
    answer of one of the two chat tools. *)
Theorem envelope_is_well_formed
    GEMINI_MODEL (w : World) (name : string) (args : Arguments) (σ : Server) :
  let result := (handleCallTool GEMINI_MODEL w name args σ).1 in
  ∃ summary rest,
    content result = TextBlock summary :: rest
    ∧ Forall (λ block, ∃ data mime, block = ImageBlock data mime) rest
    ∧ (rest ≠ [] → name = "gemini-image" ∧ isError result = false)
    ∧ (isError result = true → rest = [] ∧ meta_conversationId result = None)
    ∧ (∀ id, meta_conversationId result = Some id →
         isError result = false ∧ (name = "gemini" ∨ name = "gemini-reply")).
Proof.
  intros result.
  assert (Herror : ∀ e, result = api_error e → ∃ summary rest,
    content result = TextBlock summary :: rest
    ∧ Forall (λ block, ∃ data mime, block = ImageBlock data mime) rest
    ∧ (rest ≠ [] → name = "gemini-image" ∧ isError result = false)
    ∧ (isError result = true → rest = [] ∧ meta_conversationId result = None)
    ∧ (∀ id, meta_conversationId result = Some id →
         isError result = false ∧ (name = "gemini" ∨ name = "gemini-reply"))).
  { intros e ->. eexists _, []. split; [reflexivity|]. split; [constructor|].
    split; [done|]. split; [done|]. discriminate. }
  subst result. destruct (decide (name = "gemini")) as [->|Hgemini].
  { rewrite handle_gemini in *. cbv zeta in *.
    destruct (sendMessage w _) as [e|reply]; [by apply (Herror e)|].
    eexists _, []. split; [reflexivity|]. split; [constructor|].
    split; [done|]. split; [discriminate|]. intros id _. split; [reflexivity|by left]. }
  destruct (decide (name = "gemini-reply")) as [->|Hreply].
  { rewrite handle_gemini_reply in *. cbv zeta in *.
    destruct (cleanupSessions _ _ !! arg_conversationId args) as [session|].
    - destruct (sendMessage w _) as [e|reply]; [by apply (Herror e)|].
      eexists _, []. split; [reflexivity|]. split; [constructor|].
      split; [done|]. split; [discriminate|].
      intros id _. split; [reflexivity|by right].
    - eexists _, []. split; [reflexivity|]. split; [constructor|].
      split; [done|]. split; [done|]. discriminate. }
  destruct (decide (name = "gemini-image")) as [->|Himage].
  { rewrite handle_image_run in *. cbv zeta in *.
    destruct (generateImages w _) as [e|response]; [by apply (Herror e)|].
    destruct (save_generated w args _ _).1 as [savedPaths|e];
      [|by apply (Herror e)].
    eexists _, _. split; [reflexivity|]. split.
    - apply Forall_forall. intros block Hblock.
      apply list_elem_of_fmap in Hblock as (image & -> & _). by eexists _, _.
    - split; [done|]. split; [discriminate|]. discriminate. }
  unfold handleCallTool, try_catch, tool_body.
  apply String.eqb_neq in Hgemini as ->. apply String.eqb_neq in Hreply as ->.
  apply String.eqb_neq in Himage as ->. cbn [fst].
  eexists _, []. split; [reflexivity|]. split; [constructor|].
  split; [done|]. split; [done|]. discriminate.
Qed.

Lemma envelope_is_well_formed_witness :
  ∃ summary rest,
    content
      (handleCallTool None echo_world "gemini-image"
         (image_args "a cute cat" None None) initial).1
    = TextBlock summary :: rest
    ∧ Forall (λ block, ∃ data mime, block = ImageBlock data mime) rest.
Proof.
  destruct (envelope_is_well_formed None echo_world "gemini-image"
              (image_args "a cute cat" None None) initial)
    as (summary & rest & Hcontent & Himages & _).
  by exists summary, rest.
Defined.

(** ** Conversation ids *)

Lemma pretty_N_char_digit x : is_digit (pretty_N_char x) = true.
Proof. unfold pretty_N_char. by repeat case_match. Qed.

Lemma pretty_N_go_digits x s :
  Forall (λ c, is_digit c = true) (chars s) →
  Forall (λ c, is_digit c = true) (chars (pretty_N_go x s)).
Proof.
  revert s. induction (N.lt_wf_0 x) as [x _ IH]; intros s Hs.
  assert (x = 0 ∨ 0 < x)%N as [->|Hpos] by lia.
  - by rewrite pretty_N_go_0.
  - rewrite pretty_N_go_step by done. apply IH; [by apply N.div_lt|].
    cbn [chars]. constructor; [apply pretty_N_char_digit|exact Hs].
Qed.

Lemma pretty_Z_digits (z : Z) :
  0 ≤ z → Forall (λ c, is_digit c = true) (chars (pretty z)).
Proof.
  intros Hz. destruct z as [|p|p]; [by repeat constructor| |lia].
  unfold pretty, pretty_Z, pretty, pretty_positive, pretty, pretty_N.
  case_decide; [by repeat constructor|]. apply pretty_N_go_digits. constructor.
Qed.

Lemma digits_then_dash_inj (digits1 digits2 rest1 rest2 : string) :
  Forall (λ c, is_digit c = true) (chars digits1) →
  Forall (λ c, is_digit c = true) (chars digits2) →
  digits1 +:+ "-" +:+ rest1 = digits2 +:+ "-" +:+ rest2 →
  digits1 = digits2 ∧ rest1 = rest2.
Proof.
  revert digits2.
  induction digits1 as [|c digits1 IH]; intros [|d digits2] H1 H2 Heq.
  - split; [reflexivity|]. by injection Heq.
  - rewrite append_cons in Heq. injection Heq as <- _.
    apply Forall_cons in H2 as [Hdash _]. discriminate.
  - rewrite append_cons in Heq. injection Heq as -> _.
    apply Forall_cons in H1 as [Hdash _]. discriminate.
  - rewrite !append_cons in Heq. injection Heq as -> Heq.
    apply Forall_cons in H1 as [_ H1]. apply Forall_cons in H2 as [_ H2].
    destruct (IH digits2 H1 H2 Heq) as [-> ->]. done.
Qed.

Lemma append_inj_r (front a b : string) : front +:+ a = front +:+ b → a = b.
Proof.
  induction front as [|c front IH]; [done|].
  rewrite !append_cons. intros [= Heq]. by apply IH.
Qed.

Lemma substring_length_le n m s : (String.length (String.substring n m s) ≤ m)%nat.
Proof.
  revert n m. induction s as [|c s IH]; intros [|n] [|m]; cbn; try lia.
  - specialize (IH 0%nat m). lia.
  - apply (IH n 0%nat).
  - apply (IH n (S m)).
Qed.

(** A conversation id is [gemini-], the decimal timestamp, a dash and at
    most seven characters taken from positions 2 to 8 of the random
    string.  For timestamps that are not negative, two ids are equal
    exactly when the timestamps are equal and these characters agree:
    nothing else of the random string counts. *)
Theorem conversation_ids_collide_only_on_same_time_and_suffix
    (now now' : Z) (random36 random36' : string) :
  0 ≤ now → 0 ≤ now' →
  (generateConversationId now random36 = generateConversationId now' random36'
   ↔ now = now' ∧ Js.substring 2 9 random36 = Js.substring 2 9 random36')
  ∧ (∃ suffix,
       generateConversationId now random36
       = "gemini-" +:+ pretty now +:+ "-" +:+ suffix
       ∧ (String.length suffix ≤ 7)%nat
       ∧ Forall (λ c, is_digit c = true) (chars (pretty now))).
Proof.
  intros Hnow Hnow'. split.
  - unfold generateConversationId. split.
    + intros Heq. apply append_inj_r in Heq.
      apply digits_then_dash_inj in Heq as [Htime Hsuffix];
        try by apply pretty_Z_digits.
      split; [by apply (inj pretty)|exact Hsuffix].
    + by intros [-> ->].
  - exists (Js.substring 2 9 random36). split; [reflexivity|].
    split; [apply substring_length_le|by apply pretty_Z_digits].
Qed.

Lemma conversation_ids_collide_only_on_same_time_and_suffix_witness :
  generateConversationId 1700003600001 "0.4fzyo82mvyr"
  = generateConversationId 1700003600001 "0.4fzyo82zzzz".
Proof.
  pose proof (conversation_ids_collide_only_on_same_time_and_suffix
                1700003600001 1700003600001 "0.4fzyo82mvyr" "0.4fzyo82zzzz")
    as [Hsame _]; [lia|lia|].
  apply Hsame. split; reflexivity.
Defined.

(** ** Sizes of the store *)

Lemma complete_pairs_nil : complete_pairs [].
Proof. split; [by exists 0%nat|]. intros i turn Hturn. discriminate. Qed.

Lemma sweep_size now (store : gmap string ConversationSession) :
  (size (cleanupSessions now store) ≤ size store)%nat.
Proof.
  apply map_subseteq_size, map_subseteq_spec.
  intros id session. apply cleanupSessions_subset.
Qed.

(** A successful initial turn stores its session under the generated id
    without looking whether the id is taken: a session already stored
    under that id is replaced, its history gone, and the number of
    sessions does not grow; every other session is as the sweep left it. *)
Theorem initial_turn_replaces_session_with_same_id
    GEMINI_MODEL (w : World) (args : Arguments) (σ : Server)
    (reply : option string) :
  let swept := cleanupSessions (now_cleanup w) (sessions σ) in
  let id := generateConversationId (now_id w) (random36 w) in
  let out := handleCallTool GEMINI_MODEL w "gemini" args σ in
  sendMessage w
    (chat_request GEMINI_MODEL (arg_prompt args) []
       (Some (buildSystemInstruction (initial_config args)))) = inr reply →
  sessions out.2 !! id
  = Some {| history := [ user_turn (arg_prompt args); model_turn reply ];
            createdAt := now_createdAt w;
            lastUsed := now_lastUsed w;
            cwd := arg_cwd args |}
  ∧ (∀ other, other ≠ id → sessions out.2 !! other = swept !! other)
  ∧ (is_Some (swept !! id) → size (sessions out.2) = size swept)
  ∧ (swept !! id = None → size (sessions out.2) = S (size swept)).
Proof.
  intros swept id out Hreply. subst out swept id.
  rewrite handle_gemini. cbv zeta. rewrite Hreply. cbn [snd sessions].
  split; [by rewrite lookup_insert_eq|]. split; [|split].
  - intros other Hother. by rewrite lookup_insert_ne.
  - apply map_size_insert_Some.
  - apply map_size_insert_None.
Qed.

Lemma initial_turn_replaces_session_with_same_id_witness :
  let taken :=
    {| sessions := <[ "gemini-1700003600001-4fzyo82" := live_session ]> ∅;
       wire := [] |} in
  let out := handleCallTool None echo_world "gemini" (prompt_only "hello") taken in
  sessions out.2 !! "gemini-1700003600001-4fzyo82"
  = Some {| history := [ user_turn "hello"; model_turn (Some "echo: hello") ];
            createdAt := 1700003600002;
            lastUsed := 1700003600003;
            cwd := None |}
  ∧ size (sessions out.2) = 1%nat.
Proof.
  intros taken out.
  pose proof (initial_turn_replaces_session_with_same_id None echo_world
                (prompt_only "hello") taken (Some "echo: hello") eq_refl)
    as (Hstored & _ & Hsize & _).
  split; [exact Hstored|].
  subst out. rewrite Hsize; [vm_compute; reflexivity|].
  vm_compute. eauto.
Defined.

(** ** Overlapping dispatches: what every schedule keeps *)

Section Schedules.

Variable GEMINI_MODEL : option string.

Lemma begin_ok w name args m :
  machine_ok m → machine_ok (begin GEMINI_MODEL w name args m).2.
Proof.
  intros (Hstore & Hsuspended & Hwire).
  pose proof (store_ok_sweep (now_cleanup w) _ Hstore) as Hswept.
  assert (Hsent : ∀ call,
    complete_pairs (chat_history call) →
    ∀ request, ChatSend request ∈ wire (server m) ++ [ ChatSend call ] →
      complete_pairs (chat_history request)).
  { intros call Hcall request Hin. apply elem_of_app in Hin as [Hin|Hin].
    - by apply Hwire.
    - apply list_elem_of_singleton in Hin. by injection Hin as ->. }
  unfold begin. cbv zeta.
  destruct (String.eqb name "gemini").
  { split; [exact Hswept|]. split.
    - apply Forall_app. split; [exact Hsuspended|].
      apply Forall_singleton. by split.
    - apply Hsent, complete_pairs_nil. }
  destruct (String.eqb name "gemini-reply").
  { destruct (cleanupSessions _ _ !! arg_conversationId args)
      as [session|] eqn:Hsession; [|by split].
    pose proof (Hswept _ _ Hsession) as Hpairs.
    split; [exact Hswept|]. split.
    - apply Forall_app. split; [exact Hsuspended|].
      apply Forall_singleton. split; [reflexivity|]. by split.
    - by apply Hsent. }
  destruct (String.eqb name "gemini-image"); [|by split].
  split; [exact Hswept|]. split.
  - apply Forall_app. split; [exact Hsuspended|]. by apply Forall_singleton.
  - intros request Hin. apply elem_of_app in Hin as [Hin|Hin]; [by apply Hwire|].
    apply list_elem_of_singleton in Hin. discriminate.
Qed.

Lemma resume_ok w k m :
  machine_ok m → machine_ok (resume w k m).2.
Proof.
  intros (Hstore & Hsuspended & Hwire). unfold resume.
  destruct (suspended m !! k) as [handler|] eqn:Hk; [|by split].
  assert (Hothers :
    Forall suspended_ok (take k (suspended m) ++ drop (S k) (suspended m))).
  { apply Forall_app. split; [by apply Forall_take|by apply Forall_drop]. }
  pose proof (proj1 (Forall_lookup _ _) Hsuspended k handler Hk) as Hhandler.
  cbv zeta. destruct handler as [args call|args call object session|args call].
  - destruct Hhandler as [Hhistory _].
    destruct (sendMessage w call) as [e|reply]; [by split|].
    split; [|by split]. cbn [snd server sessions].
    apply store_ok_insert; [exact Hstore|]. cbn [history]. rewrite Hhistory.
    apply complete_pairs_first.
  - destruct Hhandler as (Hhistory & _ & Hpairs).
    destruct (sendMessage w call) as [e|reply]; [by split|].
    split; [|by split]. cbn [snd server sessions].
    destruct (attached m _ object); [|exact Hstore].
    apply store_ok_insert; [exact Hstore|]. cbn [touch history].
    rewrite Hhistory. by apply complete_pairs_app.
  - destruct (generateImages w call) as [e|response]; [by split|].
    by destruct (save_generated w args _ _).1; split.
Qed.

Lemma execute_snoc events event m :
  execute GEMINI_MODEL (events ++ [event]) m
  = (step GEMINI_MODEL (execute GEMINI_MODEL events m) event).2.
Proof. unfold execute. by rewrite foldl_app. Qed.

Lemma step_ok m event : machine_ok m → machine_ok (step GEMINI_MODEL m event).2.
Proof. destruct event; [apply begin_ok|apply resume_ok]. Qed.

Lemma execute_ok events : machine_ok (execute GEMINI_MODEL events start).
Proof.
  induction events as [|event events IH] using rev_ind.
  - split; [apply store_ok_empty|]. split; [constructor|].
    intros request Hin. by apply not_elem_of_nil in Hin.
  - rewrite execute_snoc. by apply step_ok.
Qed.

End Schedules.

Lemma resume_last (handler : Suspended) (handlers : list Suspended) :
  (handlers ++ [ handler ]) !! length handlers = Some handler
  ∧ take (length handlers) (handlers ++ [ handler ])
    ++ drop (S (length handlers)) (handlers ++ [ handler ]) = handlers.
Proof.
  split; [by apply list_lookup_middle|].
  rewrite take_app_length, drop_ge by (rewrite length_app; simpl; lia).
  apply app_nil_r.
Qed.

(** A dispatch whose second half follows its first half at once, with
    nothing in between, is [handleCallTool]: the same envelope and the same
    server state, and the other suspended handlers are as before. *)
Theorem unoverlapped_dispatch_is_handleCallTool
    GEMINI_MODEL (w : World) (name : string) (args : Arguments) (m : Machine) :
  let atomic := handleCallTool GEMINI_MODEL w name args (server m) in
  let first := begin GEMINI_MODEL w name args m in
  match first.1 with
  | Some result =>
      atomic = (result, server first.2) ∧ suspended first.2 = suspended m
  | None =>
      ∃ result m',
        resume w (length (suspended m)) first.2 = (Some result, m')
        ∧ atomic = (result, server m')
        ∧ suspended m' = suspended m
  end.
Proof.
  cbv zeta. unfold begin. cbv zeta.
  destruct (String.eqb name "gemini") eqn:Hgemini.
  { apply String.eqb_eq in Hgemini as ->. rewrite handle_gemini. cbv zeta.
    cbn [fst snd]. unfold resume. cbn [suspended].
    destruct (resume_last
                (AwaitInitial args
                   (chat_request GEMINI_MODEL (arg_prompt args) []
                      (Some (buildSystemInstruction (initial_config args)))))
                (suspended m)) as [Hlookup Hothers].
    unfold initial_config in Hlookup, Hothers. rewrite Hlookup, Hothers.
    cbv zeta. unfold initial_config.
    destruct (sendMessage w _) as [e|reply]; by eexists _, _. }
  destruct (String.eqb name "gemini-reply") eqn:Hreply.
  { apply String.eqb_eq in Hreply as ->. rewrite handle_gemini_reply. cbv zeta.
    destruct (cleanupSessions _ _ !! arg_conversationId args)
      as [session|] eqn:Hsession; cbn [fst snd]; [|done].
    unfold resume. cbn [suspended].
    destruct (resume_last
                (AwaitReply args
                   (chat_request GEMINI_MODEL (arg_prompt args) (history session)
                      (Some (buildSystemInstruction (stored_config session))))
                   (objects m !! arg_conversationId args) session)
                (suspended m)) as [Hlookup Hothers].
    unfold stored_config in Hlookup, Hothers. rewrite Hlookup, Hothers.
    cbv zeta. unfold stored_config.
    destruct (sendMessage w _) as [e|reply]; [by eexists _, _|].
    unfold attached. cbn [server sessions objects]. rewrite Hsession.
    rewrite bool_decide_eq_true_2 by reflexivity. by eexists _, _. }
  destruct (String.eqb name "gemini-image") eqn:Himage.
  { apply String.eqb_eq in Himage as ->. rewrite handle_image_run. cbv zeta.
    cbn [fst snd]. unfold resume. cbn [suspended].
    fold (dispatched_options args).
    destruct (resume_last
                (AwaitImage args
                   (image_call (arg_prompt args) (dispatched_options args)))
                (suspended m)) as [Hlookup Hothers].
    rewrite Hlookup, Hothers. cbv zeta. cbn [server].
    destruct (generateImages w _) as [e|response]; [by eexists _, _|].
    destruct (save_generated w args _ _).1; by eexists _, _. }
  cbn [fst snd]. split; [|reflexivity].
  unfold handleCallTool, try_catch, tool_body. by rewrite Hgemini, Hreply, Himage.
Qed.

Lemma unoverlapped_dispatch_is_handleCallTool_witness :
  ∃ result m',
    resume echo_world 0
      (begin None echo_world "gemini" (prompt_only "hello") start).2
    = (Some result, m')
    ∧ handleCallTool None echo_world "gemini" (prompt_only "hello") initial
      = (result, server m')
    ∧ suspended m' = [].
Proof.
  exact (unoverlapped_dispatch_is_handleCallTool None echo_world "gemini"
           (prompt_only "hello") start).
Defined.

(** C5, as stated, fails when two replies to one conversation overlap.
    After the initial turn and the first reply the stored history has four
    entries; the second reply, begun before the first was resumed, is then
    resumed with a successful answer, and the stored history still has
    four entries: the pair of the first reply is gone. *)
Lemma overlapping_replies_lose_a_pair :
  let m := execute None overlapping_replies start in
  let out := resume echo_world 0 m in
  (∃ session,
     sessions (server m) !! "gemini-1700003600001-4fzyo82" = Some session
     ∧ history session
       = [ user_turn "hello"; model_turn (Some "echo: hello");
           user_turn "first"; model_turn (Some "echo: first") ])
  ∧ (∃ result, out.1 = Some result ∧ isError result = false)
  ∧ (∃ session',
       sessions (server out.2) !! "gemini-1700003600001-4fzyo82" = Some session'
       ∧ history session'
         = [ user_turn "hello"; model_turn (Some "echo: hello");
             user_turn "second"; model_turn (Some "echo: second") ]
       ∧ length (history session') ≠ (4 + 2)%nat).
Proof.
  cbv zeta. split; [|split].
  - eexists. split; [vm_compute; reflexivity|reflexivity].
  - eexists. split; [vm_compute; reflexivity|reflexivity].
  - eexists. split; [vm_compute; reflexivity|]. split; [reflexivity|].
    cbn. lia.
Qed.

(** C5, amended.  In every schedule from the empty store, with dispatches
    overlapping in any way, every stored history has even length and
    alternates user, model, user, model, ...: no odd-length history is
    ever stored.  A successful initial turn stores exactly one user/model
    pair.  A reply that begins on a stored session takes that session's
    history with it; when it is resumed with a successful answer and its
    session object is still the one in the map, it stores the history it
    took extended by exactly one user turn and one model turn, so the
    stored history grows by exactly two entries whenever it is still the
    history the reply took (no other reply to the session was resumed in
    between); when the object is no longer in the map, it stores
    nothing. *)
Theorem histories_stay_complete_pairs_when_dispatches_overlap
    GEMINI_MODEL (events : list Event) (event : Event) :
  let m := execute GEMINI_MODEL events start in
  let m' := (step GEMINI_MODEL m event).2 in
  store_ok (sessions (server m))
  ∧ store_ok (sessions (server m'))
  ∧ (∀ w args session,
       event = Begin w "gemini-reply" args →
       cleanupSessions (now_cleanup w) (sessions (server m))
         !! arg_conversationId args = Some session →
       suspended m'
       = suspended m
         ++ [ AwaitReply args
                (chat_request GEMINI_MODEL (arg_prompt args) (history session)
                   (Some (buildSystemInstruction (stored_config session))))
                (objects m !! arg_conversationId args) session ])
  ∧ (∀ w k args call reply,
       event = Resume w k →
       suspended m !! k = Some (AwaitInitial args call) →
       sendMessage w call = inr reply →
       ∃ session',
         sessions (server m') !! generateConversationId (now_id w) (random36 w)
         = Some session'
         ∧ history session' = [ user_turn (arg_prompt args); model_turn reply ])
  ∧ (∀ w k args call object session reply,
       event = Resume w k →
       suspended m !! k = Some (AwaitReply args call object session) →
       sendMessage w call = inr reply →
       if attached m (arg_conversationId args) object then
         ∃ session',
           sessions (server m') !! arg_conversationId args = Some session'
           ∧ history session'
             = history session
               ++ [ user_turn (arg_prompt args); model_turn reply ]
           ∧ length (history session') = (length (history session) + 2)%nat
           ∧ ∀ stored,
               sessions (server m) !! arg_conversationId args = Some stored →
               history stored = history session →
               length (history session') = (length (history stored) + 2)%nat
       else sessions (server m') = sessions (server m)).
Proof.
  intros m m'. pose proof (execute_ok GEMINI_MODEL events) as Hok.
  fold m in Hok. pose proof (step_ok GEMINI_MODEL m event Hok) as Hok'.
  fold m' in Hok'. destruct Hok as (Hstore & Hsuspended & _).
  destruct Hok' as (Hstore' & _ & _).
  split; [exact Hstore|]. split; [exact Hstore'|]. split; [|split].
  - intros w args session -> Hsession. subst m'. cbn [step]. unfold begin.
    cbv zeta. change (String.eqb "gemini-reply" "gemini") with false.
    change (String.eqb "gemini-reply" "gemini-reply") with true. cbv iota.
    by rewrite Hsession.
  - intros w k args call reply -> Hk Hreply. subst m'. cbn [step].
    unfold resume. rewrite Hk. cbv zeta. rewrite Hreply. cbn [snd server sessions].
    rewrite lookup_insert_eq. eexists. split; [reflexivity|]. cbn [history].
    pose proof (proj1 (Forall_lookup _ _) Hsuspended k _ Hk) as [Hhistory _].
    by rewrite Hhistory.
  - intros w k args call object session reply -> Hk Hreply. subst m'.
    cbn [step]. unfold resume. rewrite Hk. cbv zeta. rewrite Hreply.
    cbn [snd server sessions].
    pose proof (proj1 (Forall_lookup _ _) Hsuspended k _ Hk)
      as (Hhistory & _ & _).
    destruct (attached m (arg_conversationId args) object); [|reflexivity].
    rewrite lookup_insert_eq. eexists. split; [reflexivity|].
    cbn [touch history]. rewrite Hhistory. split; [reflexivity|].
    rewrite length_app. split; [reflexivity|].
    intros stored _ ->. reflexivity.
Qed.

Lemma histories_stay_complete_pairs_when_dispatches_overlap_witness :
  let m := execute None overlapping_replies start in
  ∃ session',
    sessions (server (resume echo_world 0 m).2) !! "gemini-1700003600001-4fzyo82"
    = Some session'
    ∧ history session'
      = [ user_turn "hello"; model_turn (Some "echo: hello") ]
        ++ [ user_turn "second"; model_turn (Some "echo: second") ]
    ∧ length (history session') = 4%nat.
Proof.
  intros m.
  pose proof (histories_stay_complete_pairs_when_dispatches_overlap None
                overlapping_replies (Resume echo_world 0))
    as (_ & _ & _ & _ & Hreply).
  specialize (Hreply echo_world 0%nat
                (reply_args "gemini-1700003600001-4fzyo82" "second")
                (chat_request None "second"
                   [ user_turn "hello"; model_turn (Some "echo: hello") ]
                   (Some (buildSystemInstruction
                            (stored_config
                               (new_session echo_world (prompt_only "hello")
                                  (Some "echo: hello"))))))
                (Some 0%nat)
                (new_session echo_world (prompt_only "hello") (Some "echo: hello"))
                (Some "echo: second") eq_refl).
  assert (Hsuspended :
    suspended (execute None overlapping_replies start) !! 0%nat
    = Some (AwaitReply (reply_args "gemini-1700003600001-4fzyo82" "second")
              (chat_request None "second"
                 [ user_turn "hello"; model_turn (Some "echo: hello") ]
                 (Some (buildSystemInstruction
                          (stored_config
                             (new_session echo_world (prompt_only "hello")
                                (Some "echo: hello"))))))
              (Some 0%nat)
              (new_session echo_world (prompt_only "hello") (Some "echo: hello")))).
  { vm_compute. reflexivity. }
  specialize (Hreply Hsuspended eq_refl).
  assert (Hattached :
    attached (execute None overlapping_replies start)
      (arg_conversationId (reply_args "gemini-1700003600001-4fzyo82" "second"))
      (Some 0%nat) = true).
  { vm_compute. reflexivity. }
  rewrite Hattached in Hreply.
  destruct Hreply as (session' & Hstored & Hhistory & Hlength & _).
  exists session'. split; [exact Hstored|]. split; [exact Hhistory|].
  rewrite Hlength. reflexivity.
Defined.

Section Counting.

Variable GEMINI_MODEL : option string.

Lemma pending_initial_split (handlers : list Suspended) k handler :
  handlers !! k = Some handler →
  length (List.filter is_initial handlers)
  = (length (List.filter is_initial (take k handlers ++ drop (S k) handlers))
     + if is_initial handler then 1 else 0)%nat.
Proof.
  intros Hk. rewrite <- (take_drop_middle handlers k handler Hk) at 1.
  rewrite !List.filter_app, !length_app. cbn [List.filter].
  destruct (is_initial handler); cbn [length]; lia.
Qed.

(** One step against the counts: an event adds at most one request, and
    only when it begins a dispatch; stored sessions plus suspended initial
    turns grow by at most one, and only when an initial turn begins. *)
Lemma step_counts m event :
  let m' := (step GEMINI_MODEL m event).2 in
  (size (sessions (server m')) + length (List.filter is_initial (suspended m'))
   ≤ size (sessions (server m)) + length (List.filter is_initial (suspended m))
     + if is_initial_begin event then 1 else 0)%nat
  ∧ (length (wire (server m'))
     ≤ length (wire (server m)) + if is_begin event then 1 else 0)%nat.
Proof.
  cbv zeta. destruct event as [w name args|w k]; cbn [step is_initial_begin is_begin].
  - pose proof (sweep_size (now_cleanup w) (sessions (server m))) as Hsweep.
    unfold begin. cbv zeta.
    destruct (String.eqb name "gemini").
    { cbn [snd server sessions wire suspended].
      rewrite List.filter_app, !length_app. cbn. lia. }
    destruct (String.eqb name "gemini-reply").
    { destruct (cleanupSessions _ _ !! arg_conversationId args);
        cbn [snd server sessions wire suspended];
        rewrite ?List.filter_app, ?length_app; cbn; lia. }
    destruct (String.eqb name "gemini-image");
      cbn [snd server sessions wire suspended];
      rewrite ?List.filter_app, ?length_app; cbn; lia.
  - unfold resume. destruct (suspended m !! k) as [handler|] eqn:Hk; [|cbn; lia].
    pose proof (pending_initial_split _ _ _ Hk) as Hsplit. cbv zeta.
    destruct handler as [args call|args call object session|args call];
      cbn [is_initial] in Hsplit.
    + destruct (sendMessage w call) as [e|reply];
        cbn [snd server sessions wire suspended]; [lia|].
      split; [|lia].
      match goal with |- context [ size (<[ ?id := ?s ]> ?store) ] =>
        assert (size (<[ id := s ]> store) ≤ S (size store))%nat as Hinsert;
        [destruct (store !! id) eqn:Hid;
           [rewrite map_size_insert_Some by eauto; lia
           |rewrite map_size_insert_None by done; lia]|]
      end.
      lia.
    + destruct (sendMessage w call) as [e|reply];
        cbn [snd server sessions wire suspended]; [lia|].
      split; [|lia]. unfold attached.
      destruct (sessions (server m) !! arg_conversationId args) eqn:Hid; [|lia].
      destruct (bool_decide _); [|lia].
      rewrite map_size_insert_Some by eauto. lia.
    + destruct (generateImages w call) as [e|response];
        [cbn [snd server sessions wire suspended]; lia|].
      destruct (save_generated w args _ _).1;
        cbn [snd server sessions wire suspended]; lia.
Qed.

End Counting.

(** Over every schedule from the empty store, with dispatches overlapping
    in any way: the store never holds more sessions than initial turns
    have begun, the number of requests issued never exceeds the number of
    dispatches begun, and every chat request ever issued carries a history
    made of complete user/model pairs. *)
Theorem schedules_are_bounded_and_send_complete_histories
    GEMINI_MODEL (events : list Event) :
  let m := execute GEMINI_MODEL events start in
  (size (sessions (server m))
   ≤ length (List.filter is_initial_begin events))%nat
  ∧ (length (wire (server m)) ≤ length (List.filter is_begin events))%nat
  ∧ (length (List.filter is_begin events) ≤ length events)%nat
  ∧ (∀ request,
       ChatSend request ∈ wire (server m) → complete_pairs (chat_history request)).
Proof.
  cbv zeta.
  assert (Hcounts :
    (size (sessions (server (execute GEMINI_MODEL events start)))
     + length (List.filter is_initial
                 (suspended (execute GEMINI_MODEL events start)))
     ≤ length (List.filter is_initial_begin events))%nat
    ∧ (length (wire (server (execute GEMINI_MODEL events start)))
       ≤ length (List.filter is_begin events))%nat).
  { induction events as [|event events IH] using rev_ind.
    - cbn. rewrite map_size_empty. lia.
    - rewrite execute_snoc, !List.filter_app, !length_app.
      pose proof (step_counts GEMINI_MODEL
                    (execute GEMINI_MODEL events start) event) as [Hsize Hwire].
      cbv zeta in Hsize, Hwire. cbn [List.filter].
      destruct IH as [IHsize IHwire].
      destruct (is_initial_begin event), (is_begin event); cbn [length]; lia. }
  destruct Hcounts as [Hsize Hwire].
  split; [lia|]. split; [exact Hwire|]. split; [apply filter_length_le|].
  apply (execute_ok GEMINI_MODEL events).
Qed.

Lemma schedules_are_bounded_and_send_complete_histories_witness :
  (size (sessions (server (execute None overlapping_replies start))) ≤ 1)%nat
  ∧ (length (wire (server (execute None overlapping_replies start))) ≤ 3)%nat.
Proof.
  pose proof (schedules_are_bounded_and_send_complete_histories None
                overlapping_replies) as (Hsize & Hwire & _).
  split; [exact Hsize|exact Hwire].
Defined.
